(** * follower_automation.py: a shallow embedding of GitHubFollowerManager

    The embedding follows [src/follower_automation.py] method by method.
    - JSON objects handed back by the API ([response.json()]) are finite
      maps from field names to scalar values ([gmap string value]).
    - The sets built by the set comprehensions are [gset string].
    - The [requests] module is an interface ([Requests]) over an abstract
      remote state; every call threads that state and is recorded, with
      its answer, in a call log.
    - Python exceptions are results ([Raise]); the [while True] loops of
      the collectors take fuel and report [OutOfFuel] when it runs out.
    - A [requests] call always yields a response; log messages are not
      modelled, only the subscriptions their f-strings evaluate.
    - Strings are byte strings and [lower] acts on ASCII letters.
    [run_automation] and [main] only sequence the three phases and are
    not embedded. *)

From Stdlib Require Import ZArith QArith_base Ascii String List.
From stdpp Require Import base gmap sets list strings.

Local Open Scope string_scope.
Local Open Scope list_scope.
Local Open Scope Z_scope.

(* ===================================================================== *)
(** ** Python values, exceptions and results                              *)
(* ===================================================================== *)

(** The exceptions the modelled statements can raise.  [Unsupported] is
    not a Python exception: it marks an input the embedding does not
    cover (a login that is not a string). *)
Inductive exn : Type :=
| KeyError (key : string)
| TypeError
| AttributeError
| ValueError
| ZeroDivisionError
| Unsupported.

(** Result of a pure Python expression. *)
Inductive result (A : Type) : Type :=
| Ok (a : A)
| Err (e : exn).
Arguments Ok {A} a.
Arguments Err {A} e.

Definition rbind {A B : Type} (r : result A) (k : A → result B) : result B :=
  match r with
  | Ok a => k a
  | Err e => Err e
  end.

(** JSON scalars carried by the fields the program reads.  Floating point
    numbers, arrays and nested objects are never inspected by the code and
    are left out. *)
Inductive value : Type :=
| VNone
| VBool (b : bool)
| VInt (n : Z)
| VStr (s : string).

#[global] Instance value_eq_dec : EqDecision value.
Proof. solve_decision. Defined.

(** A user object as returned by the API: a Python [dict]. *)
Abbreviation user_data := (gmap string value).

(** [d[k]]: subscription raises [KeyError] on a missing key. *)
Definition subscript (d : user_data) (k : string) : result value :=
  match d !! k with
  | Some v => Ok v
  | None => Err (KeyError k)
  end.

(** [d.get(k, default)]. *)
Definition dict_get (d : user_data) (k : string) (dflt : value) : value :=
  default dflt (d !! k).

(** [v > n] for an integer literal [n].  [bool] is a subclass of [int];
    [None] and strings do not order against an integer. *)
Definition py_gt (v : value) (n : Z) : result bool :=
  match v with
  | VInt z => Ok (n <? z)
  | VBool b => Ok (n <? Z.b2z b)
  | VNone | VStr _ => Err TypeError
  end.

(** [v.lower()]: only strings have the method. *)
Definition lower_ascii (c : ascii) : ascii :=
  let n := N_of_ascii c in
  if ((65 <=? n) && (n <=? 90))%N then ascii_of_N (n + 32) else c.

Fixpoint lower (s : string) : string :=
  match s with
  | EmptyString => EmptyString
  | String c r => String (lower_ascii c) (lower r)
  end.

Definition py_lower (v : value) : result string :=
  match v with
  | VStr s => Ok (lower s)
  | VNone | VBool _ | VInt _ => Err AttributeError
  end.

(** [needle in hay] on strings. *)
Fixpoint startswith (p s : string) : bool :=
  match p, s with
  | EmptyString, _ => true
  | String a p', String b s' => bool_decide (a = b) && startswith p' s'
  | String _ _, EmptyString => false
  end.

Fixpoint contains (needle hay : string) : bool :=
  startswith needle hay ||
  match hay with
  | EmptyString => false
  | String _ r => contains needle r
  end.

(** Truth value of a dict: empty is false. *)
Definition dict_truthy (d : user_data) : bool := negb (bool_decide (d = ∅)).

(* ===================================================================== *)
(** ** should_skip_user                                                   *)
(* ===================================================================== *)

(** The two log lines format [user_data['login']] (and
    [user_data['followers']]) before the method returns [True]; the
    subscriptions are evaluated, the text itself is not modelled. *)
Definition should_skip_user (d : user_data) : result bool :=
  rbind (py_gt (dict_get d "followers" (VInt 0)) 10000) (λ popular,
  if popular then
    rbind (subscript d "login") (λ _,
    rbind (subscript d "followers") (λ _,
    Ok true))
  else
    rbind (if bool_decide (d !! "type" = Some (VStr "Organization"))
           then rbind (py_lower (dict_get d "login" (VStr "")))
                      (λ l, Ok (contains "github" l))
           else Ok false) (λ official,
    if official then
      rbind (subscript d "login") (λ _, Ok true)
    else Ok false)).

(* ===================================================================== *)
(** ** Configuration, the remote interface and the call log               *)
(* ===================================================================== *)

(** The attributes set by [__init__] from the environment.  [os.getenv]
    gives [None] for an unset variable. *)
Record config : Type := {
  token : option string;
  username : option string;
  max_unfollows_per_run : Z;
  max_follows_per_run : Z;
  delay_between_actions : Z
}.

(** [not s] for an optional string is true for [None] and for [''];
    [py_str] is the text an f-string inserts. *)
Definition str_truthy (o : option string) : bool :=
  match o with
  | Some s => negb (bool_decide (s = ""))
  | None => false
  end.

Definition py_str (o : option string) : string :=
  match o with
  | Some s => s
  | None => "None"
  end.

(** The two paginated listings, [/users/{u}/followers] and
    [/users/{u}/following]. *)
Inductive listing : Type := Followers | Following.

(** What the program needs from [requests]: each call takes the remote
    state, answers with a status code (and the decoded JSON body where
    the program reads one) and leaves a new remote state. *)
Class Requests (World : Type) : Type := {
  get_listing : listing → string → Z → Z → World → Z * list user_data * World;
  get_user : string → World → Z * user_data * World;
  get_following_rel : string → World → Z * World;
  put_following : string → World → Z * World;
  delete_following : string → World → Z * World
}.

(** [list(s)] for a set: the interpreter fixes some enumeration of the
    elements, each exactly once.  Which one is left open; CPython's choice
    also depends on hashing and on how the set was built, which is not
    represented. *)
Class PySet : Type := {
  list_of_set : gset string → list string;
  list_of_set_perm : ∀ s, list_of_set s ≡ₚ elements s
}.

(** The call log: every [requests] call with its answer, every
    [time.sleep], and every call of [should_skip_user] with its argument. *)
Inductive event : Type :=
| EvListing (l : listing) (user : string) (page per_page : Z)
            (status : Z) (body : list user_data)
| EvGetUser (user : string) (status : Z) (body : user_data)
| EvCheck (user : string) (status : Z)
| EvPut (user : string) (status : Z)
| EvDelete (user : string) (status : Z)
| EvSleep (secs : Z)
| EvFilter (d : user_data).

Inductive outcome (A : Type) : Type :=
| Ret (a : A)
| Raise (e : exn)
| OutOfFuel.
Arguments Ret {A} a.
Arguments Raise {A} e.
Arguments OutOfFuel {A}.

(** [l[:c]]: a negative bound counts from the end. *)
Definition py_slice_to {A : Type} (l : list A) (c : Z) : list A :=
  if 0 <=? c then take (Z.to_nat c) l
  else take (Z.to_nat (Z.of_nat (length l) + c)) l.

Definition len {A : Type} (l : list A) : Z := Z.of_nat (length l).

(** [a / b] on integers (true division), kept as an exact fraction. *)
Definition truediv (a b : Z) : result Q :=
  if b =? 0 then Err ZeroDivisionError
  else if 0 <? b then Ok (Qmake a (Z.to_pos b))
  else Ok (Qmake (- a) (Z.to_pos (- b))).

(** [user['login']] used as a set element or dict key.  Logins are
    strings; a login of another JSON type is outside the embedding. *)
Definition login_of (user : user_data) : result string :=
  rbind (subscript user "login") (λ v,
  match v with
  | VStr s => Ok s
  | VNone | VBool _ | VInt _ => Err Unsupported
  end).

(** [{user['login'] for user in users}]. *)
Fixpoint usernames (users : list user_data) : result (gset string) :=
  match users with
  | [] => Ok ∅
  | user :: rest =>
      rbind (login_of user) (λ l,
      rbind (usernames rest) (λ s, Ok ({[ l ]} ∪ s)))
  end.

(** [{user['login']: user for user in users}]: a later entry replaces an
    earlier one with the same login. *)
Fixpoint info_map (users : list user_data) (acc : gmap string user_data)
  : result (gmap string user_data) :=
  match users with
  | [] => Ok acc
  | user :: rest =>
      rbind (login_of user) (λ l, info_map rest (<[ l := user ]> acc))
  end.

(** The set expressions of the three phases: [followers - following],
    [following - followers] and [followers & following]. *)
Definition to_follow_back (follower_usernames following_usernames : gset string)
  : gset string := follower_usernames ∖ following_usernames.

Definition non_followers (follower_usernames following_usernames : gset string)
  : gset string := following_usernames ∖ follower_usernames.

Definition mutual (follower_usernames following_usernames : gset string)
  : gset string := follower_usernames ∩ following_usernames.

(** The dict returned by [get_statistics]. *)
Record stats : Type := {
  followers_count : Z;
  following_count : Z;
  mutual_follows : Z;
  only_followers : Z;
  only_following : Z;
  follow_ratio : Q
}.

(** The body of [get_statistics] after the two listings are fetched. *)
Definition compute_statistics (followers following : list user_data)
  : result stats :=
  rbind (usernames followers) (λ follower_usernames,
  rbind (usernames following) (λ following_usernames,
  let mutual_set := mutual follower_usernames following_usernames in
  let only_followers_set := to_follow_back follower_usernames following_usernames in
  let only_following_set := non_followers follower_usernames following_usernames in
  rbind (truediv (len followers) (Z.max (len following) 1)) (λ ratio,
  Ok {| followers_count := len followers;
        following_count := len following;
        mutual_follows := Z.of_nat (size mutual_set);
        only_followers := Z.of_nat (size only_followers_set);
        only_following := Z.of_nat (size only_following_set);
        follow_ratio := ratio |}))).

(* ===================================================================== *)
(** ** GitHubFollowerManager                                              *)
(* ===================================================================== *)

Section Manager.
Context {World : Type} {remote : Requests World} {interp : PySet}.
Variable self : config.

(** A method body: runs on a remote state, ends with a value, an
    exception or no fuel, and appends to the call log. *)
Definition M (A : Type) : Type := World → outcome A * World * list event.

Definition mret {A : Type} (a : A) : M A := λ w, (Ret a, w, []).

Definition bind {A B : Type} (m : M A) (k : A → M B) : M B := λ w,
  match m w with
  | (Ret a, w1, t1) =>
      match k a w1 with
      | (o, w2, t2) => (o, w2, t1 ++ t2)
      end
  | (Raise e, w1, t1) => (Raise e, w1, t1)
  | (OutOfFuel, w1, t1) => (OutOfFuel, w1, t1)
  end.

Definition lift {A : Type} (r : result A) : M A := λ w,
  match r with
  | Ok a => (Ret a, w, [])
  | Err e => (Raise e, w, [])
  end.

Definition out_of_fuel {A : Type} : M A := λ w, (OutOfFuel, w, []).

Notation "'do' x <- m ; k" := (bind m (λ x, k))
  (at level 10, x name, m at level 100, k at level 200).
Notation "m ;; k" := (bind m (λ _, k))
  (at level 100, k at level 200, right associativity).

(** [time.sleep(secs)] refuses a negative length. *)
Definition sleep (secs : Z) : M unit := λ w,
  if secs <? 0 then (Raise ValueError, w, [])
  else (Ret tt, w, [EvSleep secs]).

Definition requests_get_listing (l : listing) (user : string)
    (page per_page : Z) : M (Z * list user_data) := λ w,
  match get_listing l user page per_page w with
  | (status, body, w') =>
      (Ret (status, body), w', [EvListing l user page per_page status body])
  end.

Definition requests_get_user (user : string) : M (Z * user_data) := λ w,
  match get_user user w with
  | (status, body, w') => (Ret (status, body), w', [EvGetUser user status body])
  end.

Definition requests_get_following (user : string) : M Z := λ w,
  match get_following_rel user w with
  | (status, w') => (Ret status, w', [EvCheck user status])
  end.

Definition requests_put (user : string) : M Z := λ w,
  match put_following user w with
  | (status, w') => (Ret status, w', [EvPut user status])
  end.

Definition requests_delete (user : string) : M Z := λ w,
  match delete_following user w with
  | (status, w') => (Ret status, w', [EvDelete user status])
  end.

(** The [while True] loop shared, up to the URL, by [get_followers]
    and [get_following]; [acc] is the list extended page by page. *)
Fixpoint drain (fuel : nat) (l : listing) (user : string) (page : Z)
    (acc : list user_data) : M (list user_data) :=
  match fuel with
  | O => out_of_fuel
  | S fuel' =>
      do resp <- requests_get_listing l user page 100;
      if resp.1 =? 200 then
        match resp.2 with
        | [] => mret acc
        | _ :: _ =>
            sleep 1 ;;
            drain fuel' l user (page + 1) (acc ++ resp.2)
        end
      else mret acc
  end.

Definition get_followers (fuel : nat) (user : option string)
  : M (list user_data) :=
  let user := if str_truthy user then user else username self in
  drain fuel Followers (py_str user) 1 [].

Definition get_following (fuel : nat) (user : option string)
  : M (list user_data) :=
  let user := if str_truthy user then user else username self in
  drain fuel Following (py_str user) 1 [].

Definition follow_user (user : string) : M bool :=
  do status <- requests_put user;
  mret (status =? 204).

Definition unfollow_user (user : string) : M bool :=
  do status <- requests_delete user;
  mret (status =? 204).

Definition check_if_following (user : string) : M bool :=
  do status <- requests_get_following user;
  mret (status =? 204).

Definition get_user_info (user : string) : M (option user_data) :=
  do resp <- requests_get_user user;
  mret (if resp.1 =? 200 then Some resp.2 else None).

(** A call of [self.should_skip_user], entered in the log. *)
Definition call_should_skip_user (d : user_data) : M bool := λ w,
  match should_skip_user d with
  | Ok b => (Ret b, w, [EvFilter d])
  | Err e => (Raise e, w, [EvFilter d])
  end.

(** One pass through the body of the [for] loop of
    [follow_back_followers], after the limit test. *)
Definition follow_back_step (user : string) (followed_count : Z) : M Z :=
  do user_info <- get_user_info user;
  do skip <- match user_info with
             | Some d =>
                 if dict_truthy d then call_should_skip_user d
                 else mret false
             | None => mret false
             end;
  if (skip : bool) then mret followed_count
  else
    do ok <- follow_user user;
    if (ok : bool) then
      sleep (delay_between_actions self) ;;
      mret (followed_count + 1)
    else mret followed_count.

Fixpoint follow_back_loop (cands : list string) (followed_count : Z)
  : M Z :=
  match cands with
  | [] => mret followed_count
  | user :: rest =>
      if max_follows_per_run self <=? followed_count
      then mret followed_count
      else
        do n <- follow_back_step user followed_count;
        follow_back_loop rest n
  end.

Definition follow_back_followers (fuel : nat) : M unit :=
  do followers <- get_followers fuel None;
  do following <- get_following fuel None;
  do follower_usernames <- lift (usernames followers);
  do following_usernames <- lift (usernames following);
  let cands := to_follow_back follower_usernames following_usernames in
  if bool_decide (cands = ∅) then mret tt
  else
    follow_back_loop
      (py_slice_to (list_of_set cands) (max_follows_per_run self))
      0 ;;
    mret tt.

(** One pass through the body of the [for] loop of
    [cleanup_non_followers], after the limit test. *)
Definition cleanup_step (following_info : gmap string user_data)
    (user : string) (unfollowed_count : Z) : M Z :=
  let user_info := default ∅ (following_info !! user) in
  do skip <- call_should_skip_user user_info;
  if (skip : bool) then mret unfollowed_count
  else
    do ok <- unfollow_user user;
    if (ok : bool) then
      sleep (delay_between_actions self) ;;
      mret (unfollowed_count + 1)
    else mret unfollowed_count.

Fixpoint cleanup_loop (following_info : gmap string user_data)
    (cands : list string) (unfollowed_count : Z) : M Z :=
  match cands with
  | [] => mret unfollowed_count
  | user :: rest =>
      if max_unfollows_per_run self <=? unfollowed_count
      then mret unfollowed_count
      else
        do n <- cleanup_step following_info user unfollowed_count;
        cleanup_loop following_info rest n
  end.

Definition cleanup_non_followers (fuel : nat) : M unit :=
  do followers <- get_followers fuel None;
  do following <- get_following fuel None;
  do follower_usernames <- lift (usernames followers);
  do following_usernames <- lift (usernames following);
  let cands := non_followers follower_usernames following_usernames in
  if bool_decide (cands = ∅) then mret tt
  else
    do following_info <- lift (info_map following ∅);
    cleanup_loop following_info
      (py_slice_to (list_of_set cands) (max_unfollows_per_run self))
      0 ;;
    mret tt.

Definition get_statistics (fuel : nat) : M stats :=
  do followers <- get_followers fuel None;
  do following <- get_following fuel None;
  lift (compute_statistics followers following).

(** Either collector, by listing. *)
Definition collect (l : listing) (fuel : nat) : M (list user_data) :=
  match l with
  | Followers => get_followers fuel None
  | Following => get_following fuel None
  end.

(** The answers of the remote along the requests of a collector:
    [pages l user page w n gathered st w'] holds when [n] requests,
    for [page], [page + 1], ..., starting in state [w], are answered
    200 with a non-empty page each except the last, which has status
    [st] and is either not a success or an empty page; [gathered] is
    what the pages before the last one held, and [w'] the state left. *)
Inductive pages (l : listing) (user : string)
  : Z → World → nat → list user_data → Z → World → Prop :=
| pages_last page w st body w' :
    get_listing l user page 100 w = (st, body, w') →
    st ≠ 200 ∨ body = [] →
    pages l user page w 1 [] st w'
| pages_next page w body w1 n rest st w' :
    get_listing l user page 100 w = (200, body, w1) →
    body ≠ [] →
    pages l user (page + 1) w1 n rest st w' →
    pages l user page w (S n) (body ++ rest) st w'.

End Manager.

(* ===================================================================== *)
(** ** The identifier test of the filter, as the policy words it          *)
(* ===================================================================== *)

(** [hay] has a substring that reads [needle] once case is ignored. *)
Definition contains_ci (needle hay : string) : Prop :=
  ∃ pre mid post, hay = pre +:+ mid +:+ post ∧ lower mid = needle.

(* ===================================================================== *)
(** ** Reading the call log                                               *)
(* ===================================================================== *)

Definition is_ok {A : Type} (r : result A) : Prop := ∃ a, r = Ok a.

(** Users whose profile was requested, in order. *)
Definition lookup_of (e : event) : option string :=
  match e with
  | EvGetUser u _ _ => Some u
  | _ => None
  end.
Definition looked_up (t : list event) : list string := omap lookup_of t.

(** Arguments of the calls of [should_skip_user], in order. *)
Definition filter_arg (e : event) : option user_data :=
  match e with
  | EvFilter d => Some d
  | _ => None
  end.
Definition filtered (t : list event) : list user_data := omap filter_arg t.

(** Users a PUT or DELETE on the following relation was sent for. *)
Definition mutation_of (e : event) : option string :=
  match e with
  | EvPut u _ | EvDelete u _ => Some u
  | _ => None
  end.
Definition mutated (t : list event) : list string := omap mutation_of t.

(** Page numbers requested from a listing, in order. *)
Definition page_of (e : event) : option Z :=
  match e with
  | EvListing _ _ page _ _ _ => Some page
  | _ => None
  end.
Definition fetched (t : list event) : list Z := omap page_of t.

Definition division_error (e : exn) : bool :=
  match e with
  | ZeroDivisionError => true
  | _ => false
  end.

(** Every entry of the log that satisfies [Q] is directly followed by an
    entry related to it by [R]. *)
Definition followed_by (Q : event → Prop) (R : event → event → Prop)
    (t : list event) : Prop :=
  ∀ i e, t !! i = Some e → Q e → ∃ e', t !! S i = Some e' ∧ R e e'.

(** Every entry of the log that satisfies [Q] directly follows an entry
    related to it by [R]. *)
Definition preceded_by (Q : event → Prop) (R : event → event → Prop)
    (t : list event) : Prop :=
  ∀ i e, t !! i = Some e → Q e →
         ∃ j e', i = S j ∧ t !! j = Some e' ∧ R e' e.

(** A profile request that did not answer 200. *)
Definition failed_lookup (e : event) : Prop :=
  match e with
  | EvGetUser _ st _ => st ≠ 200
  | _ => False
  end.

(** [e'] is the PUT for the user whose profile [e] requested. *)
Definition put_after (e e' : event) : Prop :=
  match e, e' with
  | EvGetUser u _ _, EvPut u' _ => u = u'
  | _, _ => False
  end.

Definition is_filter (e : event) : Prop :=
  match e with
  | EvFilter _ => True
  | _ => False
  end.

(** [e'] is a profile request answered 200 with the very mapping the
    filter call [e] receives. *)
Definition resolved_for (e' e : event) : Prop :=
  match e', e with
  | EvGetUser _ st body, EvFilter d => st = 200 ∧ body = d
  | _, _ => False
  end.

(* ===================================================================== *)
(** ** A table-driven remote for concrete runs                            *)
(* ===================================================================== *)

(** Answers are read from fixed tables; the remote keeps no state. *)
Record sim : Type := {
  sim_pages : listing → Z → Z * list user_data;
  sim_profile : string → Z * user_data;
  sim_put : string → Z;
  sim_delete : string → Z
}.

Definition sim_requests (r : sim) : Requests unit := {|
  get_listing l _ page _ w := (sim_pages r l page, w);
  get_user u w := (sim_profile r u, w);
  get_following_rel u w := (404, w);
  put_following u w := (sim_put r u, w);
  delete_following u w := (sim_delete r u, w)
|}.

(** An interpreter that enumerates a set in the order of [elements]. *)
Definition elements_order : PySet := {|
  list_of_set := elements;
  list_of_set_perm := λ s, reflexivity (elements s)
|}.

Definition entry (login : string) : user_data := {[ "login" := VStr login ]}.

Definition profile (login : string) (followers : Z) (type : string)
  : user_data :=
  {[ "login" := VStr login; "followers" := VInt followers;
     "type" := VStr type ]}.

Definition defaults : config := {|
  token := Some "t0ken";
  username := Some "me";
  max_unfollows_per_run := 20;
  max_follows_per_run := 15;
  delay_between_actions := 5
|}.

(** Every profile resolves, every mutation succeeds, the listings are
    empty. *)
Definition calm : sim := {|
  sim_pages _ _ := (200, []);
  sim_profile u := (200, profile u 10 "User");
  sim_put _ := 204;
  sim_delete _ := 204
|}.

(** One follower, "ghost", whose profile does not resolve. *)
Definition lost : sim := {|
  sim_pages l page :=
    match l with
    | Followers => if page =? 1 then (200, [entry "ghost"]) else (200, [])
    | Following => (200, [])
    end;
  sim_profile _ := (404, ∅);
  sim_put _ := 204;
  sim_delete _ := 204
|}.

(** The listings fail on every request. *)
Definition down : sim := {|
  sim_pages _ _ := (500, []);
  sim_profile u := (200, profile u 10 "User");
  sim_put _ := 204;
  sim_delete _ := 204
|}.

(** Two followers on page 1, then the listing fails. *)
Definition flaky : sim := {|
  sim_pages _ page :=
    if page =? 1 then (200, [entry "a"; entry "b"]) else (502, []);
  sim_profile u := (200, profile u 10 "User");
  sim_put _ := 204;
  sim_delete _ := 204
|}.

(** Two followers on page 1, then the listing ends. *)
Definition small : sim := {|
  sim_pages _ page :=
    if page =? 1 then (200, [entry "a"; entry "b"]) else (200, []);
  sim_profile u := (200, profile u 10 "User");
  sim_put _ := 204;
  sim_delete _ := 204
|}.

(** Nobody follows back: one followed user, no follower. *)
Definition onesided : sim := {|
  sim_pages l page :=
    match l with
    | Followers => (200, [])
    | Following => if page =? 1 then (200, [entry "u"]) else (200, [])
    end;
  sim_profile u := (200, profile u 10 "User");
  sim_put _ := 204;
  sim_delete _ := 204
|}.

Definition tight : config := {|
  token := Some "t0ken";
  username := Some "me";
  max_unfollows_per_run := 1;
  max_follows_per_run := 2;
  delay_between_actions := 5
|}.

(** Every page of every listing holds one user: no page is ever empty. *)
Definition endless : sim := {|
  sim_pages _ _ := (200, [entry "a"]);
  sim_profile u := (200, profile u 10 "User");
  sim_put _ := 204;
  sim_delete _ := 204
|}.

(** Followers "a" and "b", following "b" and "c"; "a" is popular; the
    DELETE for "c" is answered 404. *)
Definition mixed : sim := {|
  sim_pages l page :=
    if page =? 1 then
      match l with
      | Followers => (200, [entry "a"; entry "b"])
      | Following => (200, [entry "b"; entry "c"])
      end
    else (200, []);
  sim_profile u :=
    if bool_decide (u = "a") then (200, profile "a" 20000 "User")
    else (200, profile u 10 "User");
  sim_put _ := 204;
  sim_delete u := if bool_decide (u = "c") then 404 else 204
|}.

(** No token in the environment. *)
Definition unconfigured : config := {|
  token := None;
  username := Some "me";
  max_unfollows_per_run := 20;
  max_follows_per_run := 15;
  delay_between_actions := 5
|}.

(* ===================================================================== *)
(** ** run_automation and main                                            *)
(* ===================================================================== *)

Section Orchestrator.
Context {World : Type} {remote : Requests World} {interp : PySet}.
Variable self : config.

(** [run_automation(action)].  The [except] clause logs and re-raises, so
    an exception leaves the method as it left the phase. *)
Definition run_automation (fuel : nat) (action : string) : M unit :=
  if negb (str_truthy (token self)) || negb (str_truthy (username self))
  then mret tt
  else
    bind (get_statistics self fuel) (λ initial_stats,
    bind (if bool_decide (action = "both")
             || bool_decide (action = "follow_back")
          then bind (follow_back_followers self fuel) (λ _, sleep 10)
          else mret tt) (λ _,
    bind (if bool_decide (action = "both")
             || bool_decide (action = "cleanup")
          then cleanup_non_followers self fuel
          else mret tt) (λ _,
    if bool_decide (action = "both")
    then bind (get_statistics self fuel) (λ final_stats, mret tt)
    else mret tt))).

(** [main()], given the value of [AUTOMATION_ACTION] in the environment. *)
Definition main (fuel : nat) (env_action : option string) : M unit :=
  let action := default "both" env_action in
  if negb (str_truthy (token self)) then mret tt
  else if negb (str_truthy (username self)) then mret tt
  else run_automation fuel action.

End Orchestrator.

(* ===================================================================== *)
(** ** More readers of the call log                                       *)
(* ===================================================================== *)

(** The PUTs, the DELETEs and the pauses of a log, in order. *)
Definition put_of (e : event) : option (string * Z) :=
  match e with
  | EvPut u st => Some (u, st)
  | _ => None
  end.
Definition puts (t : list event) : list (string * Z) := omap put_of t.

Definition delete_of (e : event) : option (string * Z) :=
  match e with
  | EvDelete u st => Some (u, st)
  | _ => None
  end.
Definition deletes (t : list event) : list (string * Z) := omap delete_of t.

Definition pause_of (e : event) : option Z :=
  match e with
  | EvSleep secs => Some secs
  | _ => None
  end.
Definition pauses (t : list event) : list Z := omap pause_of t.

(** A mutation answered 204. *)
Definition succeeded (p : string * Z) : bool := p.2 =? 204.

(** What a collector may log: requests for its own listing of [user] with
    100 entries per page, and pauses of one second. *)
Definition collector_event (l : listing) (user : string) (e : event) : Prop :=
  match e with
  | EvListing l' user' _ per_page _ _ =>
      l' = l ∧ user' = user ∧ per_page = 100
  | EvSleep secs => secs = 1
  | _ => False
  end.

(** An entry that changes nothing on the remote side. *)
Definition read_only (e : event) : Prop :=
  match e with
  | EvPut _ _ | EvDelete _ _ => False
  | _ => True
  end.

Definition not_put (e : event) : Prop :=
  match e with
  | EvPut _ _ => False
  | _ => True
  end.

Definition not_delete (e : event) : Prop :=
  match e with
  | EvDelete _ _ => False
  | _ => True
  end.

(** A PUT or DELETE answered 204, and the pause that follows it. *)
Definition mutation_succeeded (e : event) : Prop :=
  match e with
  | EvPut _ st | EvDelete _ st => st = 204
  | _ => False
  end.

Definition pause_of_length (secs : Z) (e e' : event) : Prop :=
  e' = EvSleep secs.

(** A log with at most [a] PUTs and at most [b] DELETEs. *)
Definition within (a b : Z) (t : list event) : Prop :=
  len (puts t) ≤ a ∧ len (deletes t) ≤ b.

(** A log in which no PUT comes after a DELETE. *)
Definition follows_before_unfollows (t : list event) : Prop :=
  ∃ ta tb, t = ta ++ tb ∧ deletes ta = [] ∧ puts tb = [].

(* ===================================================================== *)
(** * Properties                                                          *)
(* ===================================================================== *)

(* ===================================================================== *)
(** ** Strings                                                            *)
(* ===================================================================== *)

Lemma startswith_spec (p s : string) :
  startswith p s = true ↔ ∃ post, s = p +:+ post.
Proof.
  revert s. induction p as [|a p IH]; intros s; simpl.
  - split; [intros _; by exists s | done].
  - destruct s as [|b s]; simpl.
    + split; [done | intros [post Hp]; discriminate].
    + rewrite andb_true_iff, bool_decide_eq_true, IH. split.
      * intros [-> [post ->]]. by exists post.
      * intros [post Hp]. injection Hp as -> ->. eauto.
Qed.

Lemma contains_spec (p s : string) :
  contains p s = true ↔ ∃ pre post, s = pre +:+ p +:+ post.
Proof.
  induction s as [|b s IH]; simpl.
  - rewrite orb_false_r, startswith_spec. split.
    + intros [post Hp]. by exists "", post.
    + intros [[|c pre] [post Hp]]; simpl in Hp; [eauto | discriminate].
  - rewrite orb_true_iff, startswith_spec, IH. split.
    + intros [[post Hp] | (pre & post & ->)].
      * by exists "", post.
      * by exists (String b pre), post.
    + intros [[|c pre] [post Hp]]; simpl in Hp.
      * left. eauto.
      * right. injection Hp as -> ->. eauto.
Qed.

Lemma lower_app (a b : string) : lower (a +:+ b) = lower a +:+ lower b.
Proof. induction a as [|c a IH]; simpl; [done | by rewrite IH]. Qed.

Lemma lower_split (s a b : string) :
  lower s = a +:+ b → ∃ a' b', s = a' +:+ b' ∧ lower a' = a ∧ lower b' = b.
Proof.
  revert s. induction a as [|c a IH]; intros s Hs; simpl in Hs.
  - by exists "", s.
  - destruct s as [|d s]; simpl in Hs; [discriminate |].
    injection Hs as Hc Hs. destruct (IH _ Hs) as (a' & b' & -> & Ha & Hb).
    exists (String d a'), b'. simpl. by rewrite Hc, Ha.
Qed.

Lemma contains_lower_ci (needle s : string) :
  contains needle (lower s) = true ↔ contains_ci needle s.
Proof.
  rewrite contains_spec. unfold contains_ci. split.
  - intros (pre & post & Hs).
    apply lower_split in Hs as (pre' & rest & -> & _ & Hrest).
    apply lower_split in Hrest as (mid & post' & -> & Hmid & _).
    by exists pre', mid, post'.
  - intros (pre & mid & post & -> & <-).
    exists (lower pre), (lower post). by rewrite !lower_app.
Qed.

(* ===================================================================== *)
(** ** The safety filter                                                  *)
(* ===================================================================== *)

(** C5.  On a profile that carries an integer follower count and a string
    login, the filter answers, and it answers "skip" exactly when the
    count is strictly above 10000 (so 10001 is skipped and 10000 is not
    skipped by this rule) or the type is "Organization" and the login
    contains "github" up to case. *)
Theorem should_skip_user_policy (d : user_data) (n : Z) (l : string) :
  d !! "followers" = Some (VInt n) →
  d !! "login" = Some (VStr l) →
  ∃ b, should_skip_user d = Ok b ∧
       (b = true ↔
        10000 < n ∨
        (d !! "type" = Some (VStr "Organization") ∧ contains_ci "github" l)).
Proof.
  intros Hf Hl. unfold should_skip_user, dict_get, subscript.
  rewrite Hf, Hl. simpl.
  destruct (Z.ltb_spec 10000 n) as [Hn | Hn]; simpl.
  - exists true. split; [done | tauto].
  - case_bool_decide as Hty; simpl.
    + destruct (contains "github" (lower l)) eqn:Hc; simpl.
      * exists true. split; [done |].
        split; [| done]. intros _. right. split; [done |].
        by apply contains_lower_ci.
      * exists false. split; [done |].
        split; [done |]. intros [? | [_ Hci]]; [lia |].
        apply contains_lower_ci in Hci. congruence.
    + exists false. split; [done |].
      split; [done |]. intros [? | [? _]]; [lia | done].
Qed.

Lemma should_skip_user_policy_witness :
  ∃ b, should_skip_user
         {[ "followers" := VInt 10000; "login" := VStr "GitHub-Actions";
            "type" := VStr "Organization" ]} = Ok b ∧
       (b = true ↔
        10000 < 10000 ∨
        (({[ "followers" := VInt 10000; "login" := VStr "GitHub-Actions";
             "type" := VStr "Organization" ]} : user_data) !! "type"
           = Some (VStr "Organization") ∧
         contains_ci "github" "GitHub-Actions")).
Proof.
  apply (should_skip_user_policy _ 10000 "GitHub-Actions"); reflexivity.
Defined.

(** An absent follower count is read as 0, and, below the popularity
    threshold, an absent login is read as the empty string. *)
Lemma should_skip_user_without_followers (d : user_data) :
  d !! "followers" = None →
  should_skip_user d = should_skip_user (<[ "followers" := VInt 0 ]> d).
Proof.
  intros Hf. unfold should_skip_user, dict_get, subscript.
  rewrite Hf, lookup_insert_eq.
  by rewrite !lookup_insert_ne.
Qed.

Lemma should_skip_user_without_login (d : user_data) :
  d !! "login" = None →
  py_gt (dict_get d "followers" (VInt 0)) 10000 ≠ Ok true →
  should_skip_user d = should_skip_user (<[ "login" := VStr "" ]> d).
Proof.
  intros Hl Hpop. unfold should_skip_user, dict_get, subscript in *.
  rewrite Hl, lookup_insert_eq.
  rewrite !lookup_insert_ne by done.
  destruct (py_gt (default (VInt 0) (d !! "followers")) 10000)
    as [[|]|e]; simpl; [done | | done].
  by case_bool_decide.
Qed.

(* ===================================================================== *)
(** ** Call logs                                                          *)
(* ===================================================================== *)

Lemma followed_by_nil Q R : followed_by Q R [].
Proof. intros i e Hi. by rewrite lookup_nil in Hi. Qed.

Lemma preceded_by_nil Q R : preceded_by Q R [].
Proof. intros i e Hi. by rewrite lookup_nil in Hi. Qed.

Lemma followed_by_app Q R t1 t2 :
  followed_by Q R t1 → followed_by Q R t2 → followed_by Q R (t1 ++ t2).
Proof.
  intros H1 H2 i e Hi HQ.
  apply lookup_app_Some in Hi as [Hi | [Hle Hi]].
  - destruct (H1 i e Hi HQ) as (e' & He' & HR).
    exists e'. split; [| done]. by apply lookup_app_l_Some.
  - destruct (H2 _ e Hi HQ) as (e' & He' & HR).
    exists e'. split; [| done].
    rewrite lookup_app_r by lia.
    by replace (S i - length t1)%nat with (S (i - length t1)) by lia.
Qed.

Lemma preceded_by_app Q R t1 t2 :
  preceded_by Q R t1 → preceded_by Q R t2 → preceded_by Q R (t1 ++ t2).
Proof.
  intros H1 H2 i e Hi HQ.
  apply lookup_app_Some in Hi as [Hi | [Hle Hi]].
  - destruct (H1 i e Hi HQ) as (j & e' & -> & He' & HR).
    exists j, e'. split; [done |]. split; [| done]. by apply lookup_app_l_Some.
  - destruct (H2 _ e Hi HQ) as (j & e' & Hj & He' & HR).
    exists (length t1 + j)%nat, e'. split; [lia |]. split; [| done].
    rewrite lookup_app_r by lia.
    by replace (length t1 + j - length t1)%nat with j by lia.
Qed.

Lemma looked_up_app t1 t2 : looked_up (t1 ++ t2) = looked_up t1 ++ looked_up t2.
Proof. apply omap_app. Qed.

Lemma filtered_app t1 t2 : filtered (t1 ++ t2) = filtered t1 ++ filtered t2.
Proof. apply omap_app. Qed.

Lemma py_slice_to_nonneg {A : Type} (l : list A) (c : Z) :
  0 ≤ c →
  py_slice_to l c = take (Z.to_nat c) l ∧
  len (py_slice_to l c) = Z.min (len l) c.
Proof.
  intros Hc. unfold py_slice_to, len.
  destruct (Z.leb_spec 0 c); [| lia].
  split; [done |]. rewrite length_take. lia.
Qed.

(* ===================================================================== *)
(** ** The two action loops                                               *)
(* ===================================================================== *)

Section Executor.
Context {World : Type} {remote : Requests World}.
Variable self : config.

Ltac unfold_m :=
  unfold follow_back_step, cleanup_step, get_user_info, follow_user,
    unfollow_user, call_should_skip_user, requests_get_user, requests_put,
    requests_delete, sleep, bind, mret, lift in *.

(** Case analysis along one pass of the follow-back body. *)
Ltac run_follow_step u w :=
  unfold_m;
  destruct (get_user u w) as [[?st ?body] ?w] eqn:?Hlookup; simpl;
  destruct (_ =? 200) eqn:?Hst; simpl;
  [ destruct (dict_truthy _) eqn:?Htruthy; simpl;
    [ destruct (should_skip_user _) as [[|]|?] eqn:?Hfilter; simpl | ]
  | ];
  try (destruct (put_following u _) as [?st ?w]; simpl;
       destruct (_ =? 204) eqn:?Hput; simpl;
       [ destruct (_ <? 0) eqn:?Hdelay; simpl | ]).

(** Case analysis along one pass of the cleanup body. *)
Ltac run_cleanup_step u w :=
  unfold_m;
  destruct (should_skip_user _) as [[|]|?] eqn:?Hfilter; simpl;
  try (destruct (delete_following u w) as [?st ?w]; simpl;
       destruct (_ =? 204) eqn:?Hdel; simpl;
       [ destruct (_ <? 0) eqn:?Hdelay; simpl | ]).

Ltac log_cases i Hi HQ :=
  repeat (destruct i as [|i]; simpl in Hi; simplify_eq; simpl in HQ;
          try done).

(** A property of logs that holds of the empty log, of every pass of
    the body and of concatenations holds of the whole loop. *)
Lemma follow_back_loop_log (P : list event → Prop) :
  P [] →
  (∀ t1 t2, P t1 → P t2 → P (t1 ++ t2)) →
  (∀ u k w, P (follow_back_step self u k w).2) →
  ∀ cands k w, P (follow_back_loop self cands k w).2.
Proof.
  intros Hnil Happ Hstep cands.
  induction cands as [|u rest IH]; intros k w; simpl; [done |].
  destruct (max_follows_per_run self <=? k); [done |].
  unfold bind at 1. specialize (Hstep u k w).
  destruct (follow_back_step self u k w) as [[[k'| |] w1] t1]; simpl in *;
    try done.
  specialize (IH k' w1).
  destruct (follow_back_loop self rest k' w1) as [[o w2] t2]; simpl in *.
  by apply Happ.
Qed.

Lemma cleanup_loop_log (P : list event → Prop) info :
  P [] →
  (∀ t1 t2, P t1 → P t2 → P (t1 ++ t2)) →
  (∀ u k w, P (cleanup_step self info u k w).2) →
  ∀ cands k w, P (cleanup_loop self info cands k w).2.
Proof.
  intros Hnil Happ Hstep cands.
  induction cands as [|u rest IH]; intros k w; simpl; [done |].
  destruct (max_unfollows_per_run self <=? k); [done |].
  unfold bind at 1. specialize (Hstep u k w).
  destruct (cleanup_step self info u k w) as [[[k'| |] w1] t1]; simpl in *;
    try done.
  specialize (IH k' w1).
  destruct (cleanup_loop self info rest k' w1) as [[o w2] t2]; simpl in *.
  by apply Happ.
Qed.

Lemma follow_back_step_unresolved u k w :
  followed_by failed_lookup put_after (follow_back_step self u k w).2.
Proof.
  run_follow_step u w; intros i ev Hi HQ; log_cases i Hi HQ;
    try (apply Z.eqb_eq in Hst; done);
    eexists; split; simpl; done.
Qed.

Lemma follow_back_step_resolved u k w :
  preceded_by is_filter resolved_for (follow_back_step self u k w).2.
Proof.
  run_follow_step u w; intros i ev Hi HQ; log_cases i Hi HQ;
    apply Z.eqb_eq in Hst; eexists 0%nat, _; simpl; done.
Qed.

Lemma follow_back_step_looked_up u k w :
  looked_up (follow_back_step self u k w).2 = [u].
Proof. by run_follow_step u w. Qed.

Lemma cleanup_step_filtered info u k w :
  looked_up (cleanup_step self info u k w).2 = [] ∧
  filtered (cleanup_step self info u k w).2 = [default ∅ (info !! u)].
Proof. by run_cleanup_step u w. Qed.

Lemma follow_back_loop_looked_up cands k w :
  looked_up (follow_back_loop self cands k w).2 `prefix_of` cands.
Proof.
  revert k w. induction cands as [|u rest IH]; intros k w; simpl; [done |].
  destruct (max_follows_per_run self <=? k); [apply prefix_nil |].
  unfold bind at 1. pose proof (follow_back_step_looked_up u k w) as Hu.
  destruct (follow_back_step self u k w) as [[[k'| |] w1] t1]; simpl in *;
    try (rewrite Hu; apply (prefix_cons u), prefix_nil).
  specialize (IH k' w1).
  destruct (follow_back_loop self rest k' w1) as [[o w2] t2]; simpl in *.
  rewrite looked_up_app, Hu. by apply (prefix_cons u).
Qed.

Lemma cleanup_loop_filtered info cands k w :
  filtered (cleanup_loop self info cands k w).2
    `prefix_of` (λ u, default ∅ (info !! u)) <$> cands.
Proof.
  revert k w. induction cands as [|u rest IH]; intros k w; simpl; [done |].
  destruct (max_unfollows_per_run self <=? k); [apply prefix_nil |].
  unfold bind at 1.
  destruct (cleanup_step_filtered info u k w) as [_ Hu].
  destruct (cleanup_step self info u k w) as [[[k'| |] w1] t1]; simpl in *;
    try (rewrite Hu; apply prefix_cons, prefix_nil).
  specialize (IH k' w1).
  destruct (cleanup_loop self info rest k' w1) as [[o w2] t2]; simpl in *.
  rewrite filtered_app, Hu. by apply prefix_cons.
Qed.

Lemma cleanup_loop_no_lookup info cands k w :
  looked_up (cleanup_loop self info cands k w).2 = [].
Proof.
  apply (cleanup_loop_log (λ t, looked_up t = [])); [done | |].
  - intros t1 t2 H1 H2. by rewrite looked_up_app, H1, H2.
  - intros u k' w'. apply cleanup_step_filtered.
Qed.


(** C1 (as amended).  In the follow-back loop, a profile request that
    does not answer 200 is directly followed by the PUT that follows the
    same user: the filter is not consulted and the follow is attempted. *)
Theorem unresolved_profile_is_followed (cands : list string) (k : Z)
    (w : World) (i : nat) (u : string) (st : Z) (body : user_data) :
  (follow_back_loop self cands k w).2 !! i = Some (EvGetUser u st body) →
  st ≠ 200 →
  ∃ st', (follow_back_loop self cands k w).2 !! S i = Some (EvPut u st').
Proof.
  intros Hi Hst.
  assert (followed_by failed_lookup put_after
            (follow_back_loop self cands k w).2) as Hlog.
  { apply follow_back_loop_log;
      auto using followed_by_nil, followed_by_app,
        follow_back_step_unresolved. }
  destruct (Hlog i _ Hi Hst) as (e' & He' & HR).
  destruct e'; simpl in HR; try done. subst. eauto.
Qed.

(** C7 (as amended).  In the follow-back loop every call of the filter
    directly follows a profile request answered 200, on the mapping that
    request returned, and profiles are requested for candidates in
    order.  The cleanup loop requests no profile: its filter calls
    receive the records cached from the following listing (an empty
    mapping when there is none). *)
Theorem lookup_precedes_filter (cands : list string)
    (info : gmap string user_data) (k : Z) (w : World) :
  preceded_by is_filter resolved_for (follow_back_loop self cands k w).2 ∧
  looked_up (follow_back_loop self cands k w).2 `prefix_of` cands ∧
  looked_up (cleanup_loop self info cands k w).2 = [] ∧
  filtered (cleanup_loop self info cands k w).2
    `prefix_of` (λ u, default ∅ (info !! u)) <$> cands.
Proof.
  split_and!.
  - apply follow_back_loop_log;
      auto using preceded_by_nil, preceded_by_app,
        follow_back_step_resolved.
  - apply follow_back_loop_looked_up.
  - apply cleanup_loop_no_lookup.
  - apply cleanup_loop_filtered.
Qed.

(** C10 (as amended).  A mapping with neither a follower count nor a
    login is not skipped; a cleanup candidate without a cached record is
    filtered as the empty mapping, is not skipped, and the DELETE for it
    is sent. *)
Theorem missing_fields_not_skipped (d : user_data)
    (info : gmap string user_data) (u : string) (k : Z) (w : World) :
  d !! "followers" = None →
  d !! "login" = None →
  info !! u = None →
  should_skip_user d = Ok false ∧
  ∃ o w' st t,
    cleanup_step self info u k w
      = (o, w', EvFilter ∅ :: EvDelete u st :: t).
Proof.
  intros Hf Hl Hu. split.
  - unfold should_skip_user, dict_get, subscript. rewrite Hf, Hl. simpl.
    by case_bool_decide.
  - unfold cleanup_step. rewrite Hu. simpl.
    run_cleanup_step u w; try done; by eexists _, _, _, _.
Qed.

(** *** The cap *)

Hypothesis delay_nonneg : 0 ≤ delay_between_actions self.

Lemma follow_back_step_returns u k w :
  (∀ u w st d w', get_user u w = (st, d, w') → st = 200 →
                  is_ok (should_skip_user d)) →
  ∃ k' w' t, follow_back_step self u k w = (Ret k', w', t) ∧
             looked_up t = [u] ∧ k ≤ k' ≤ k + 1.
Proof.
  intros Hprofiles. run_follow_step u w;
    try (eexists _, _, _; split; [reflexivity |]; split; [done | lia]).
  all: try (apply Z.ltb_lt in Hdelay; lia).
  apply Z.eqb_eq in Hst.
  destruct (Hprofiles _ _ _ _ _ Hlookup Hst) as [b Hb]. congruence.
Qed.

Lemma cleanup_step_returns info u k w :
  is_ok (should_skip_user (default ∅ (info !! u))) →
  ∃ k' w' t, cleanup_step self info u k w = (Ret k', w', t) ∧
             filtered t = [default ∅ (info !! u)] ∧ k ≤ k' ≤ k + 1.
Proof.
  intros [b Hb]. run_cleanup_step u w;
    try (eexists _, _, _; split; [reflexivity |]; split; [done | lia]).
  all: try (apply Z.ltb_lt in Hdelay; lia).
  all: congruence.
Qed.

(** While the count plus the candidates left stays within the limit,
    the limit test never fires and every candidate is processed. *)
Lemma follow_back_loop_returns cands k w :
  (∀ u w st d w', get_user u w = (st, d, w') → st = 200 →
                  is_ok (should_skip_user d)) →
  k + len cands ≤ max_follows_per_run self →
  ∃ k' w' t, follow_back_loop self cands k w = (Ret k', w', t) ∧
             looked_up t = cands ∧ k ≤ k' ≤ k + len cands.
Proof.
  intros Hprofiles. revert k w. unfold len.
  induction cands as [|u rest IH]; intros k w Hk; simpl in *.
  - eexists _, _, _. split; [reflexivity |]. split; [done | lia].
  - destruct (Z.leb_spec (max_follows_per_run self) k); [lia |].
    destruct (follow_back_step_returns u k w Hprofiles)
      as (k1 & w1 & t1 & Hstep & Hu & Hk1).
    destruct (IH k1 w1) as (k2 & w2 & t2 & Hloop & Hrest & Hk2); [lia |].
    exists k2, w2, (t1 ++ t2). unfold bind. rewrite Hstep, Hloop.
    split; [done |]. rewrite looked_up_app, Hu, Hrest. split; [done | lia].
Qed.

Lemma cleanup_loop_returns info cands k w :
  (∀ u, u ∈ cands → is_ok (should_skip_user (default ∅ (info !! u)))) →
  k + len cands ≤ max_unfollows_per_run self →
  ∃ k' w' t, cleanup_loop self info cands k w = (Ret k', w', t) ∧
             filtered t = (λ u, default ∅ (info !! u)) <$> cands ∧
             k ≤ k' ≤ k + len cands.
Proof.
  revert k w. unfold len.
  induction cands as [|u rest IH]; intros k w Hrec Hk; simpl in *.
  - eexists _, _, _. split; [reflexivity |]. split; [done | lia].
  - destruct (Z.leb_spec (max_unfollows_per_run self) k); [lia |].
    destruct (cleanup_step_returns info u k w)
      as (k1 & w1 & t1 & Hstep & Hu & Hk1); [apply Hrec; left |].
    destruct (IH k1 w1) as (k2 & w2 & t2 & Hloop & Hrest & Hk2);
      [intros u' Hu'; apply Hrec; by right | lia |].
    exists k2, w2, (t1 ++ t2). unfold bind. rewrite Hstep, Hloop.
    split; [done |]. rewrite filtered_app, Hu, Hrest. split; [done | lia].
Qed.

(** C2.  With a non-negative limit, neither loop is cut short by its
    limit test: the follow-back loop requests the profile of exactly the
    first min(n, c) candidates and the cleanup loop calls the filter for
    exactly the first min(n, c) candidates, whatever the filter and the
    mutations answer. *)
Theorem cap_invariant (cands : list string) (info : gmap string user_data)
    (w : World) :
  0 ≤ max_follows_per_run self →
  0 ≤ max_unfollows_per_run self →
  (∀ u w st d w', get_user u w = (st, d, w') → st = 200 →
                  is_ok (should_skip_user d)) →
  (∀ u, u ∈ cands → is_ok (should_skip_user (default ∅ (info !! u)))) →
  (∃ k w' t,
      follow_back_loop self
        (py_slice_to cands (max_follows_per_run self)) 0 w = (Ret k, w', t) ∧
      looked_up t = py_slice_to cands (max_follows_per_run self) ∧
      len (looked_up t) = Z.min (len cands) (max_follows_per_run self)) ∧
  (∃ k w' t,
      cleanup_loop self info
        (py_slice_to cands (max_unfollows_per_run self)) 0 w
        = (Ret k, w', t) ∧
      filtered t = (λ u, default ∅ (info !! u)) <$>
                     py_slice_to cands (max_unfollows_per_run self) ∧
      len (filtered t) = Z.min (len cands) (max_unfollows_per_run self)).
Proof.
  intros Hf Hu Hprofiles Hrec.
  destruct (py_slice_to_nonneg cands _ Hf) as [Hsf Hlf].
  destruct (py_slice_to_nonneg cands _ Hu) as [Hsu Hlu].
  split.
  - destruct (follow_back_loop_returns
                (py_slice_to cands (max_follows_per_run self)) 0 w)
      as (k & w' & t & Hrun & Ht & _); [done | lia |].
    exists k, w', t. by rewrite Ht.
  - destruct (cleanup_loop_returns info
                (py_slice_to cands (max_unfollows_per_run self)) 0 w)
      as (k & w' & t & Hrun & Ht & _); [| lia |].
    + intros u Hin. apply Hrec. rewrite Hsu in Hin.
      by eapply subseteq_take.
    + exists k, w', t. split; [done |]. split; [done |].
      rewrite Ht. unfold len in *. by rewrite length_fmap.
Qed.

(** With a negative limit the slice may be non-empty, but the limit
    test stops the loop before the first candidate. *)
Lemma follow_back_loop_negative_cap cands w :
  max_follows_per_run self < 0 →
  follow_back_loop self cands 0 w = (Ret 0, w, []).
Proof.
  intros Hc. destruct cands as [|u rest]; simpl; [done |].
  by destruct (Z.leb_spec (max_follows_per_run self) 0); [| lia].
Qed.

End Executor.

(* ===================================================================== *)
(** ** The collectors                                                     *)
(* ===================================================================== *)

Section Collector.
Context {World : Type} {remote : Requests World}.
Variable self : config.

Lemma fetched_app t1 t2 : fetched (t1 ++ t2) = fetched t1 ++ fetched t2.
Proof. apply omap_app. Qed.

(** The loop follows the answers of the remote: it makes exactly the
    requests [pages] describes and returns what was gathered before the
    last one, whether that one failed or was empty. *)
Lemma drain_pages l user page w n gathered st w' :
  pages l user page w n gathered st w' →
  ∀ fuel acc, (n ≤ fuel)%nat →
  ∃ t, drain fuel l user page acc w = (Ret (acc ++ gathered), w', t) ∧
       fetched t = seqZ page (Z.of_nat n).
Proof.
  induction 1 as [page w st body w' Hget Hstop
                 |page w body w1 n rest st w' Hget Hbody _ IH];
    intros fuel acc Hfuel;
    (destruct fuel as [|fuel]; [lia |]); simpl;
    unfold bind, requests_get_listing; rewrite Hget; simpl.
  - rewrite app_nil_r.
    destruct (Z.eqb_spec st 200) as [-> | Hst].
    + destruct Hstop as [? | ->]; [done |]. by eexists.
    + by eexists.
  - destruct body as [|b body]; [done |]. simpl.
    destruct (IH fuel (acc ++ b :: body)) as (t & -> & Ht); [lia |].
    eexists. split; [by rewrite <- app_assoc |].
    simpl. rewrite Ht.
    replace (Z.of_nat (S n)) with (Z.succ (Z.of_nat n)) by lia.
    rewrite (seqZ_cons page) by lia. do 2 f_equal; lia.
Qed.

(** Without fuel left the loop has made one request per unit of fuel:
    nothing but the answers of the remote ends it. *)
Lemma drain_out_of_fuel fuel l user page acc w w' t :
  drain fuel l user page acc w = (OutOfFuel, w', t) →
  fetched t = seqZ page (Z.of_nat fuel).
Proof.
  revert page acc w t. induction fuel as [|fuel IH]; intros page acc w t.
  - simpl. unfold out_of_fuel. by intros [= <- <-].
  - simpl. unfold bind, requests_get_listing.
    destruct (get_listing l user page 100 w) as [[st body] w1]. simpl.
    destruct (st =? 200); [| done].
    destruct body as [|b body]; [done |]. simpl.
    destruct (drain fuel l user (page + 1) _ w1) as [[o w2] t2] eqn:Hrest.
    intros [= -> -> <-]. apply IH in Hrest. simpl. rewrite Hrest.
    replace (Z.of_nat (S fuel)) with (Z.succ (Z.of_nat fuel)) by lia.
    rewrite (seqZ_cons page) by lia. do 2 f_equal; lia.
Qed.

Lemma pages_positive l user page w n gathered st w' :
  pages l user page w n gathered st w' → (1 ≤ n)%nat.
Proof. destruct 1; lia. Qed.

Lemma pages_one l user page w gathered st w' :
  pages l user page w 1 gathered st w' → gathered = [].
Proof.
  inversion 1 as [| ? ? ? ? ? ? ? ? _ _ Hrest]; [done |].
  apply pages_positive in Hrest. lia.
Qed.

(** Conversely, a collection that returns has met a request answered
    with an empty page or a failure. *)
Lemma drain_returns fuel l user page acc w r w' t :
  drain fuel l user page acc w = (Ret r, w', t) →
  ∃ n gathered st,
    pages l user page w n gathered st w' ∧ r = acc ++ gathered ∧
    (n ≤ fuel)%nat.
Proof.
  revert page acc w t. induction fuel as [|fuel IH]; intros page acc w t;
    simpl; [done |].
  unfold bind, requests_get_listing.
  destruct (get_listing l user page 100 w) as [[st body] w1] eqn:Hget. simpl.
  destruct (Z.eqb_spec st 200) as [-> | Hst].
  - destruct body as [|b body]; simpl.
    + intros [= <- <- <-]. exists 1%nat, [], 200.
      rewrite app_nil_r. split_and!; [| done | lia].
      eapply pages_last; [done | by right].
    + destruct (drain fuel l user (page + 1) _ w1) as [[o w2] t2] eqn:Hrest.
      intros [= -> -> <-].
      apply IH in Hrest as (n & gathered & st & Hpages & -> & Hn).
      exists (S n), ((b :: body) ++ gathered), st.
      split_and!; [| by rewrite <- app_assoc | lia].
      by eapply pages_next.
  - intros [= <- <- <-]. exists 1%nat, [], st.
    rewrite app_nil_r. split_and!; [| done | lia].
    eapply pages_last; [done | by left].
Qed.

Lemma collect_drain l fuel :
  collect self l fuel = drain fuel l (py_str (username self)) 1 [].
Proof. by destruct l. Qed.

(** C3 (as amended).  When the request that ends a collection fails
    (status other than 200), the collector returns normally, with the
    list of the entries gathered from the pages before it: the same
    kind of value as after a complete collection, and the empty list
    when the first request fails. *)
Theorem failed_page_returns_partial_list (l : listing) (fuel n : nat)
    (w w' : World) (gathered : list user_data) (st : Z) :
  pages l (py_str (username self)) 1 w n gathered st w' →
  st ≠ 200 →
  (n ≤ fuel)%nat →
  (collect self l fuel w).1.1 = Ret gathered ∧
  (n = 1%nat → (collect self l fuel w).1.1 = Ret []).
Proof.
  intros Hpages _ Hfuel. rewrite collect_drain.
  destruct (drain_pages _ _ _ _ _ _ _ _ Hpages fuel [] Hfuel) as (t & -> & _).
  split; [done |]. intros ->. by rewrite (pages_one _ _ _ _ _ _ _ Hpages).
Qed.

(** C6 (as amended).  A collector requests pages 1, 2, 3, ... in turn
    and ends at the first request answered with an empty page or with a
    status other than 200: if that is the [n]-th request, any fuel from
    [n] on gives a result after exactly [n] requests.  No other test
    ends the loop. *)
Theorem collection_ends_at_first_stop (l : listing) (fuel n : nat)
    (w w' : World) (gathered : list user_data) (st : Z) :
  pages l (py_str (username self)) 1 w n gathered st w' →
  (n ≤ fuel)%nat →
  ∃ t, collect self l fuel w = (Ret gathered, w', t) ∧
       fetched t = seqZ 1 (Z.of_nat n).
Proof.
  intros Hpages Hfuel. rewrite collect_drain.
  by destruct (drain_pages _ _ _ _ _ _ _ _ Hpages fuel [] Hfuel) as (t & -> & ?);
    eexists.
Qed.

End Collector.

(* ===================================================================== *)
(** ** Reconciliation and statistics                                      *)
(* ===================================================================== *)

Lemma reconciliation_parts_disjoint (F G : gset string) :
  to_follow_back F G ∪ non_followers F G ∪ mutual F G = F ∪ G ∧
  to_follow_back F G ## non_followers F G ∧
  to_follow_back F G ## mutual F G ∧
  non_followers F G ## mutual F G.
Proof.
  unfold to_follow_back, non_followers, mutual. split_and!.
  - apply set_eq. intros x.
    rewrite !elem_of_union, !elem_of_difference, elem_of_intersection.
    destruct (decide (x ∈ F)), (decide (x ∈ G)); tauto.
  - apply elem_of_disjoint. intros x.
    rewrite !elem_of_difference. tauto.
  - apply elem_of_disjoint. intros x.
    rewrite elem_of_difference, elem_of_intersection. tauto.
  - apply elem_of_disjoint. intros x.
    rewrite elem_of_difference, elem_of_intersection. tauto.
Qed.

(** C4.  The three set expressions are the two differences and the
    intersection; together they make up the union of followers and
    following, and no two of them share a member. *)
Theorem reconciliation_partition (F G : gset string) :
  to_follow_back F G = F ∖ G ∧
  non_followers F G = G ∖ F ∧
  mutual F G = F ∩ G ∧
  to_follow_back F G ∪ non_followers F G ∪ mutual F G = F ∪ G ∧
  to_follow_back F G ## non_followers F G ∧
  to_follow_back F G ## mutual F G ∧
  non_followers F G ## mutual F G.
Proof.
  destruct (reconciliation_parts_disjoint F G) as (? & ? & ? & ?).
  by split_and!.
Qed.

Lemma reconciliation_sizes (F G : gset string) :
  size (F ∪ G) =
  (size (to_follow_back F G) + size (non_followers F G) + size (mutual F G))%nat.
Proof.
  destruct (reconciliation_parts_disjoint F G) as (Hu & H1 & H2 & H3).
  rewrite <- Hu.
  rewrite size_union by (by apply disjoint_union_l).
  by rewrite size_union.
Qed.

Example reconciliation_scenario :
  to_follow_back {[ "A"; "B"; "C" ]} {[ "B"; "C"; "D" ]} = {[ "A" ]} ∧
  non_followers {[ "A"; "B"; "C" ]} {[ "B"; "C"; "D" ]} = {[ "D" ]} ∧
  mutual {[ "A"; "B"; "C" ]} {[ "B"; "C"; "D" ]} = {[ "B"; "C" ]}.
Proof. by vm_compute. Qed.

Lemma usernames_error (users : list user_data) (e : exn) :
  usernames users = Err e → division_error e = false.
Proof.
  induction users as [|user rest IH]; simpl; [done |].
  unfold login_of, subscript.
  destruct (user !! "login") as [[| | |l]|]; simpl; try by intros [= <-].
  destruct (usernames rest); simpl; [done |]. intros [= <-]. by apply IH.
Qed.

Lemma truediv_max (a b : Z) :
  truediv a (Z.max b 1) = Ok (Qmake a (Z.to_pos (Z.max b 1))).
Proof.
  unfold truediv.
  destruct (Z.eqb_spec (Z.max b 1) 0); [lia |].
  by destruct (Z.ltb_spec 0 (Z.max b 1)); [| lia].
Qed.

Lemma compute_statistics_cases (followers following : list user_data) :
  match compute_statistics followers following with
  | Ok st =>
      followers_count st = len followers ∧
      following_count st = len following ∧
      follow_ratio st
        = Qmake (len followers) (Z.to_pos (Z.max (len following) 1))
  | Err e => division_error e = false
  end.
Proof.
  unfold compute_statistics.
  destruct (usernames followers) as [F | e] eqn:HF; simpl;
    [| by eapply usernames_error].
  destruct (usernames following) as [G | e] eqn:HG; simpl;
    [| by eapply usernames_error].
  by rewrite truediv_max.
Qed.

Section Statistics.
Context {World : Type} {remote : Requests World}.
Variable self : config.

Lemma drain_never_raises fuel l user page acc w e :
  (drain fuel l user page acc w).1.1 ≠ Raise e.
Proof.
  revert page acc w. induction fuel as [|fuel IH]; intros page acc w; simpl;
    [done |].
  unfold bind, requests_get_listing.
  destruct (get_listing l user page 100 w) as [[st body] w1]. simpl.
  destruct (st =? 200); [| done].
  destruct body as [|b body]; [done |]. simpl.
  specialize (IH (page + 1) (acc ++ b :: body) w1).
  by destruct (drain fuel l user (page + 1) _ w1) as [[[?|?|] ?] ?].
Qed.

(** C8.  Computing the statistics never ends in a division error, in
    [get_statistics] as a whole and in the arithmetic on any two
    listings: the ratio is the followers count over
    max(following count, 1), which is the followers count over 1 when
    nobody is followed. *)
Theorem ratio_never_divides_by_zero (fuel : nat) (w : World)
    (followers following : list user_data) :
  match (get_statistics self fuel w).1.1 with
  | Raise e => division_error e = false
  | _ => True
  end ∧
  match compute_statistics followers following with
  | Ok st =>
      follow_ratio st
        = Qmake (followers_count st)
                (Z.to_pos (Z.max (following_count st) 1))
  | Err e => division_error e = false
  end ∧
  match compute_statistics followers [] with
  | Ok st =>
      following_count st = 0 ∧
      follow_ratio st = Qmake (followers_count st) 1
  | Err e => division_error e = false
  end.
Proof.
  split_and!.
  - unfold get_statistics, get_followers, get_following, bind, lift.
    simpl.
    pose proof (drain_never_raises fuel Followers
                  (py_str (username self)) 1 [] w) as H1.
    destruct (drain fuel Followers _ 1 [] w) as [[[fr|e|] w1] t1];
      simpl in *; [| by destruct (H1 e) | done].
    pose proof (drain_never_raises fuel Following
                  (py_str (username self)) 1 [] w1) as H2.
    destruct (drain fuel Following _ 1 [] w1) as [[[fg|e|] w2] t2];
      simpl in *; [| by destruct (H2 e) | done].
    pose proof (compute_statistics_cases fr fg) as Hc.
    by destruct (compute_statistics fr fg).
  - pose proof (compute_statistics_cases followers following) as Hc.
    destruct (compute_statistics followers following); [| done].
    by destruct Hc as (-> & -> & ->).
  - pose proof (compute_statistics_cases followers []) as Hc.
    destruct (compute_statistics followers []); [| done].
    by destruct Hc as (-> & -> & ->).
Qed.
End Statistics.

Example statistics_scenario :
  compute_statistics [entry "A"; entry "B"; entry "C"]
                     [entry "B"; entry "C"; entry "D"]
  = Ok {| followers_count := 3; following_count := 3; mutual_follows := 2;
          only_followers := 1; only_following := 1;
          follow_ratio := Qmake 3 3 |}.
Proof. by vm_compute. Qed.

(* ===================================================================== *)
(** ** Candidates                                                         *)
(* ===================================================================== *)

Lemma py_slice_to_take {A : Type} (l : list A) (c : Z) :
  ∃ n, py_slice_to l c = take n l.
Proof. unfold py_slice_to. destruct (0 <=? c); eauto. Qed.

(** The users a follow-back run may act on are distinct followers that are
    not followed yet, whichever enumeration the interpreter picks. *)
Lemma follow_back_candidates {interp : PySet} (F G : gset string) (c : Z) :
  NoDup (py_slice_to (list_of_set (to_follow_back F G)) c) ∧
  ∀ u, u ∈ py_slice_to (list_of_set (to_follow_back F G)) c → u ∈ F ∧ u ∉ G.
Proof.
  destruct (py_slice_to_take (list_of_set (to_follow_back F G)) c) as [n ->].
  split.
  - eapply sublist_NoDup; [| apply sublist_take].
    rewrite list_of_set_perm. apply NoDup_elements.
  - intros u Hu. apply subseteq_take in Hu.
    rewrite list_of_set_perm, elem_of_elements in Hu.
    by apply elem_of_difference in Hu.
Qed.

(* ===================================================================== *)
(** ** Concrete runs                                                      *)
(* ===================================================================== *)

Lemma should_skip_user_profile (u : string) :
  should_skip_user (profile u 10 "User") = Ok false.
Proof. reflexivity. Qed.

Lemma unresolved_profile_is_followed_witness :
  ∃ st', (follow_back_loop (remote := sim_requests lost) defaults
            ["ghost"] 0 tt).2 !! 1%nat = Some (EvPut "ghost" st').
Proof.
  apply (unresolved_profile_is_followed (remote := sim_requests lost)
           defaults ["ghost"] 0 tt 0 "ghost" 404 ∅).
  - reflexivity.
  - lia.
Defined.

(** C1, as stated, fails: "ghost" follows the account, the profile of
    "ghost" does not resolve, the filter is never called, and the
    follow-back phase still sends the PUT that follows "ghost". *)
Lemma unresolved_profile_counterexample :
  (get_user_info (remote := sim_requests lost) "ghost" tt).1.1 = Ret None ∧
  filtered (follow_back_followers (remote := sim_requests lost)
              (interp := elements_order) defaults 3 tt).2 = [] ∧
  mutated (follow_back_followers (remote := sim_requests lost)
             (interp := elements_order) defaults 3 tt).2 = ["ghost"].
Proof. by vm_compute. Qed.

(** C7, as stated, fails in the cleanup phase: "u" is filtered and
    unfollowed, and no profile is requested at any point of the run. *)
Lemma lookup_precedes_filter_counterexample :
  filtered (cleanup_non_followers (remote := sim_requests onesided)
              (interp := elements_order) defaults 3 tt).2 = [entry "u"] ∧
  looked_up (cleanup_non_followers (remote := sim_requests onesided)
               (interp := elements_order) defaults 3 tt).2 = [] ∧
  ¬ preceded_by is_filter resolved_for
      (cleanup_non_followers (remote := sim_requests onesided)
         (interp := elements_order) defaults 3 tt).2.
Proof.
  split_and!; [by vm_compute | by vm_compute |].
  intros Hlog.
  destruct (Hlog 4%nat (EvFilter (entry "u"))) as (j & e' & Hj & He' & HR);
    [by vm_compute | done |].
  injection Hj as <-. vm_compute in He'. injection He' as <-. done.
Qed.

Lemma cap_invariant_witness :
  (∃ k w' t,
      follow_back_loop (remote := sim_requests calm) tight
        (py_slice_to ["a"; "b"; "c"] 2) 0 tt = (Ret k, w', t) ∧
      looked_up t = py_slice_to ["a"; "b"; "c"] 2 ∧
      len (looked_up t) = Z.min (len ["a"; "b"; "c"]) 2) ∧
  (∃ k w' t,
      cleanup_loop (remote := sim_requests calm) tight ∅
        (py_slice_to ["a"; "b"; "c"] 1) 0 tt = (Ret k, w', t) ∧
      filtered t = (λ u, default ∅ ((∅ : gmap string user_data) !! u)) <$>
                     py_slice_to ["a"; "b"; "c"] 1 ∧
      len (filtered t) = Z.min (len ["a"; "b"; "c"]) 1).
Proof.
  apply (cap_invariant (remote := sim_requests calm) tight).
  - simpl. lia.
  - simpl. lia.
  - simpl. lia.
  - intros u w st d w' [= <- <- <-] _. exists false. reflexivity.
  - intros u _. exists false. reflexivity.
Defined.

Lemma failed_page_returns_partial_list_witness :
  (collect (remote := sim_requests flaky) defaults Followers 5 tt).1.1
    = Ret [entry "a"; entry "b"] ∧
  (2%nat = 1%nat →
   (collect (remote := sim_requests flaky) defaults Followers 5 tt).1.1
     = Ret []).
Proof.
  apply (failed_page_returns_partial_list (remote := sim_requests flaky)
           defaults Followers 5 2 tt tt [entry "a"; entry "b"] 502).
  - apply (pages_next (remote := sim_requests flaky) Followers "me" 1 tt
             [entry "a"; entry "b"] tt 1 [] 502 tt).
    + reflexivity.
    + discriminate.
    + apply (pages_last (remote := sim_requests flaky) Followers "me" 2 tt
               502 [] tt); [reflexivity | left; lia].
  - lia.
  - lia.
Defined.

(** C3, as stated, fails: a collection whose first request is refused
    returns the empty list, exactly what an account without followers
    gives, and a collection cut after its first page returns the same
    list as a complete one-page collection. *)
Lemma failed_collection_counterexample :
  (get_followers (remote := sim_requests down) defaults 3 None tt).1.1
    = Ret [] ∧
  (get_followers (remote := sim_requests calm) defaults 3 None tt).1.1
    = Ret [] ∧
  (get_following (remote := sim_requests down) defaults 3 None tt).1.1
    = Ret [] ∧
  (get_following (remote := sim_requests calm) defaults 3 None tt).1.1
    = Ret [] ∧
  (get_followers (remote := sim_requests flaky) defaults 3 None tt).1.1
    = (get_followers (remote := sim_requests small) defaults 3 None tt).1.1 ∧
  fetched (get_followers (remote := sim_requests flaky) defaults 3 None tt).2
    = [1; 2].
Proof. by vm_compute. Qed.

Lemma collection_ends_at_first_stop_witness :
  ∃ t, collect (remote := sim_requests small) defaults Following 7 tt
         = (Ret [entry "a"; entry "b"], tt, t) ∧
       fetched t = seqZ 1 (Z.of_nat 2).
Proof.
  apply (collection_ends_at_first_stop (remote := sim_requests small)
           defaults Following 7 2 tt tt [entry "a"; entry "b"] 200).
  - apply (pages_next (remote := sim_requests small) Following "me" 1 tt
             [entry "a"; entry "b"] tt 1 [] 200 tt).
    + reflexivity.
    + discriminate.
    + apply (pages_last (remote := sim_requests small) Following "me" 2 tt
               200 [] tt); [reflexivity | right; reflexivity].
  - lia.
Defined.

Lemma endless_drain (fuel : nat) (l : listing) (user : string) (page : Z)
    (acc : list user_data) :
  (drain (remote := sim_requests endless) fuel l user page acc tt).1.1
    = OutOfFuel.
Proof.
  revert page acc. induction fuel as [|fuel IH]; intros page acc; [done |].
  simpl. unfold bind, requests_get_listing. simpl.
  specialize (IH (page + 1) (acc ++ [entry "a"])).
  by destruct (drain fuel l user (page + 1) _ tt) as [[[?|?|] ?] ?].
Qed.

Lemma endless_fetches (fuel : nat) :
  length (fetched (get_followers (remote := sim_requests endless) defaults
                     fuel None tt).2) = fuel.
Proof.
  pose proof (endless_drain fuel Followers "me" 1 []) as Hout.
  unfold get_followers. simpl.
  destruct (drain fuel Followers "me" 1 [] tt) as [[o w'] t] eqn:Hrun.
  simpl in *. subst o. apply drain_out_of_fuel in Hrun.
  rewrite Hrun, length_seqZ. lia.
Qed.

(** C6, as stated, fails: against a remote whose pages are never empty
    the collector returns for no amount of fuel, and no bound holds for
    the number of pages it requests. *)
Lemma unbounded_collection_counterexample :
  (¬ ∃ fuel r,
       (get_followers (remote := sim_requests endless) defaults fuel None
          tt).1.1 = Ret r) ∧
  (¬ ∃ bound : nat, ∀ fuel : nat,
       (length (fetched (get_followers (remote := sim_requests endless)
                           defaults fuel None tt).2) ≤ bound)%nat).
Proof.
  split.
  - intros (fuel & r & Hr). unfold get_followers in Hr.
    by rewrite endless_drain in Hr.
  - intros [bound Hbound]. specialize (Hbound (S bound)).
    rewrite endless_fetches in Hbound. lia.
Qed.

Lemma missing_fields_not_skipped_witness :
  should_skip_user {[ "type" := VStr "Organization" ]} = Ok false ∧
  ∃ o w' st t,
    cleanup_step (remote := sim_requests calm) defaults ∅ "u" 0 tt
      = (o, w', EvFilter ∅ :: EvDelete "u" st :: t).
Proof.
  apply (missing_fields_not_skipped (remote := sim_requests calm) defaults
           {[ "type" := VStr "Organization" ]} ∅ "u" 0 tt); reflexivity.
Defined.

(** C10, as stated, fails: a mapping without a follower count is skipped
    when it is an organisation named after the platform, and on a mapping
    with a large follower count and no login the filter raises instead of
    answering. *)
Lemma missing_fields_counterexample :
  ¬ (∀ d : user_data,
       d !! "followers" = None ∨ d !! "login" = None →
       should_skip_user d = Ok false) ∧
  should_skip_user {[ "type" := VStr "Organization"; "login" := VStr "github" ]}
    = Ok true ∧
  should_skip_user {[ "followers" := VInt 20000 ]} = Err (KeyError "login").
Proof.
  split_and!; [| reflexivity | reflexivity].
  intros Hall.
  specialize (Hall {[ "type" := VStr "Organization";
                      "login" := VStr "github" ]}).
  discriminate Hall. by left.
Qed.

(* ===================================================================== *)
(** * Further properties                                                  *)
(* ===================================================================== *)

(* ===================================================================== *)
(** ** The filter, field by field                                         *)
(* ===================================================================== *)

(** X1.  The filter reads the fields "followers", "type" and "login" and
    nothing else: two mappings that agree on these three get the same
    answer, or the same exception. *)
Theorem should_skip_user_reads_three_fields (d1 d2 : user_data) :
  d1 !! "followers" = d2 !! "followers" →
  d1 !! "type" = d2 !! "type" →
  d1 !! "login" = d2 !! "login" →
  should_skip_user d1 = should_skip_user d2.
Proof.
  intros Hf Ht Hl. unfold should_skip_user, dict_get, subscript.
  by rewrite Hf, Ht, Hl.
Qed.

(** X2.  The answer depends on the login only through its lower-case
    form: changing the case of letters in the login changes nothing. *)
Theorem should_skip_user_ignores_login_case (d : user_data) (l1 l2 : string) :
  lower l1 = lower l2 →
  should_skip_user (<[ "login" := VStr l1 ]> d)
  = should_skip_user (<[ "login" := VStr l2 ]> d).
Proof.
  intros Hl. unfold should_skip_user, dict_get, subscript.
  rewrite !lookup_insert_eq. rewrite !lookup_insert_ne by done.
  simpl. by rewrite Hl.
Qed.

#[local] Set Warnings "-clear-no-such-hyp".


(* ===================================================================== *)
(** ** Login sets, the record cache and the counts                        *)
(* ===================================================================== *)

Lemma login_of_ok (d : user_data) (u : string) :
  login_of d = Ok u ↔ d !! "login" = Some (VStr u).
Proof.
  unfold login_of, subscript.
  destruct (d !! "login") as [[| | |s]|]; simpl; naive_solver.
Qed.

Lemma usernames_spec (users : list user_data) (S : gset string) :
  usernames users = Ok S →
  (∀ u, u ∈ S ↔ ∃ d, d ∈ users ∧ d !! "login" = Some (VStr u)) ∧
  (size S ≤ length users)%nat.
Proof.
  revert S. induction users as [|d rest IH]; intros S; simpl.
  - intros [= <-]. split; [| by rewrite size_empty].
    intros u. rewrite elem_of_empty. split; [done |].
    intros (d & Hd & _). by apply elem_of_nil in Hd.
  - destruct (login_of d) as [l|] eqn:Hl; simpl; [| done].
    destruct (usernames rest) as [S'|]; simpl; [| done].
    intros [= <-]. destruct (IH S' eq_refl) as [Hmem Hsize].
    apply login_of_ok in Hl. split.
    + intros u. rewrite elem_of_union, elem_of_singleton, Hmem. split.
      * intros [-> | (d' & Hd' & Hu)].
        -- exists d. split; [left | done].
        -- exists d'. split; [by right | done].
      * intros (d' & Hd' & Hu). apply elem_of_cons in Hd' as [-> | Hd'].
        -- left. congruence.
        -- right. eauto.
    + rewrite size_union_alt, size_singleton.
      pose proof (subseteq_size (S' ∖ {[l]}) S') as Hle.
      etrans; [apply Nat.add_le_mono_l, Hle |]; [| lia].
      intros x. rewrite elem_of_difference. tauto.
Qed.

(** X4.  The set built from a listing holds exactly the logins of its
    entries: duplicates collapse, so it has at most as many members as
    the listing has entries. *)
Theorem usernames_members (users : list user_data) (S : gset string) :
  usernames users = Ok S →
  (∀ u, u ∈ S ↔ ∃ d, d ∈ users ∧ d !! "login" = Some (VStr u)) ∧
  (size S ≤ length users)%nat.
Proof. apply usernames_spec. Qed.

Lemma info_map_acc (users : list user_data) (acc m : gmap string user_data) :
  info_map users acc = Ok m →
  ∀ u d, m !! u = Some d →
         (d ∈ users ∧ d !! "login" = Some (VStr u)) ∨
         (acc !! u = Some d ∧ ∀ d', d' ∈ users → d' !! "login" ≠ Some (VStr u)).
Proof.
  revert acc. induction users as [|x rest IH]; intros acc; simpl.
  - intros [= <-] u d Hu. right. split; [done |].
    intros d' Hd'. by apply elem_of_nil in Hd'.
  - destruct (login_of x) as [l|] eqn:Hl; simpl; [| done].
    apply login_of_ok in Hl. intros Hm u d Hu.
    destruct (IH _ Hm u d Hu) as [[Hin Hlogin] | [Hacc Hnone]].
    + left. split; [by right | done].
    + destruct (decide (l = u)) as [-> | Hne].
      * rewrite lookup_insert_eq in Hacc. injection Hacc as <-.
        left. split; [left | done].
      * rewrite lookup_insert_ne in Hacc by done. right. split; [done |].
        intros d' Hd'. apply elem_of_cons in Hd' as [-> | Hd']; [| eauto].
        congruence.
Qed.

Lemma info_map_dom (users : list user_data) (acc m : gmap string user_data)
    (S : gset string) :
  usernames users = Ok S →
  info_map users acc = Ok m →
  dom m = S ∪ dom acc.
Proof.
  revert acc S. induction users as [|x rest IH]; intros acc S; simpl.
  - intros [= <-] [= <-]. by rewrite (left_id_L ∅ (∪)).
  - destruct (login_of x) as [l|]; simpl; [| done].
    destruct (usernames rest) as [S'|] eqn:HS'; simpl; [| done].
    intros [= <-] Hm. rewrite (IH _ _ eq_refl Hm), dom_insert_L.
    apply set_eq. intros u. rewrite !elem_of_union. tauto.
Qed.

Lemma info_map_succeeds (users : list user_data) (acc : gmap string user_data)
    (S : gset string) :
  usernames users = Ok S → ∃ m, info_map users acc = Ok m.
Proof.
  revert acc S. induction users as [|x rest IH]; intros acc S; simpl; [eauto |].
  destruct (login_of x) as [l|]; simpl; [| done].
  destruct (usernames rest) as [S'|] eqn:HS'; simpl; [| done].
  intros _. eauto.
Qed.

Lemma info_map_spec (users : list user_data) (S : gset string)
    (m : gmap string user_data) :
  usernames users = Ok S →
  info_map users ∅ = Ok m →
  dom m = S ∧
  ∀ u d, m !! u = Some d → d ∈ users ∧ d !! "login" = Some (VStr u).
Proof.
  intros HS Hm. split.
  - rewrite (info_map_dom _ _ _ _ HS Hm), dom_empty_L.
    by rewrite (right_id_L ∅ (∪)).
  - intros u d Hu.
    destruct (info_map_acc _ _ _ Hm u d Hu) as [? | [Hacc _]]; [done |].
    by rewrite lookup_empty in Hacc.
Qed.

(** X5.  The record cache of the cleanup phase has one record per login
    of the following listing, and the record kept for a login is an entry
    of the listing that carries this very login. *)
Theorem info_map_records (users : list user_data) (S : gset string)
    (m : gmap string user_data) :
  usernames users = Ok S →
  info_map users ∅ = Ok m →
  dom m = S ∧
  ∀ u d, m !! u = Some d → d ∈ users ∧ d !! "login" = Some (VStr u).
Proof. apply info_map_spec. Qed.

(** X6.  When two entries of the listing carry the same login, the cache
    keeps the later one. *)
Theorem info_map_last_wins (pre post : list user_data) (d : user_data)
    (u : string) (m : gmap string user_data) :
  d !! "login" = Some (VStr u) →
  (∀ d', d' ∈ post → d' !! "login" ≠ Some (VStr u)) →
  info_map (pre ++ d :: post) ∅ = Ok m →
  m !! u = Some d.
Proof.
  intros Hd Hpost. generalize (∅ : gmap string user_data).
  induction pre as [|x pre IH]; intros acc; simpl.
  - apply login_of_ok in Hd. rewrite Hd. simpl. intros Hm.
    destruct (m !! u) as [d'|] eqn:Hu.
    + destruct (info_map_acc _ _ _ Hm u d' Hu) as [[Hin Hl] | [Hacc _]].
      * by destruct (Hpost d' Hin).
      * by rewrite lookup_insert_eq in Hacc.
    + assert (u ∈ dom m) as Hdom; [| by apply not_elem_of_dom in Hu].
      destruct (usernames post) as [S'|] eqn:HS'.
      * rewrite (info_map_dom _ _ _ _ HS' Hm), dom_insert_L.
        rewrite !elem_of_union, elem_of_singleton. tauto.
      * exfalso. clear -HS' Hm. revert Hm. generalize (<[u:=d]> acc).
        induction post as [|y post IHp]; intros acc'; simpl in *; [done |].
        destruct (login_of y); simpl in *; [| done].
        destruct (usernames post); simpl in *; [done |]. by apply IHp.
  - destruct (login_of x); simpl; [| done]. apply IH.
Qed.

Lemma size_split (F G : gset string) :
  size F = (size (F ∩ G) + size (F ∖ G))%nat.
Proof.
  rewrite <- size_union.
  - f_equal. apply set_eq. intros x.
    rewrite elem_of_union, elem_of_intersection, elem_of_difference.
    destruct (decide (x ∈ G)); tauto.
  - apply elem_of_disjoint. intros x.
    rewrite elem_of_intersection, elem_of_difference. tauto.
Qed.

(** X7.  The counts of a statistics dict fit together: mutual plus
    only-followers is the number of distinct follower logins, mutual plus
    only-following the number of distinct followed logins, and neither
    exceeds the length of its listing (which counts repeated entries). *)
Theorem statistics_counts (followers following : list user_data) (st : stats) :
  compute_statistics followers following = Ok st →
  ∃ F G,
    usernames followers = Ok F ∧ usernames following = Ok G ∧
    mutual_follows st + only_followers st = Z.of_nat (size F) ∧
    mutual_follows st + only_following st = Z.of_nat (size G) ∧
    Z.of_nat (size F) ≤ followers_count st ∧
    Z.of_nat (size G) ≤ following_count st.
Proof.
  unfold compute_statistics.
  destruct (usernames followers) as [F|] eqn:HF; simpl; [| done].
  destruct (usernames following) as [G|] eqn:HG; simpl; [| done].
  rewrite truediv_max. simpl. intros [= <-]. simpl.
  exists F, G. unfold mutual, to_follow_back, non_followers, len.
  destruct (usernames_spec _ _ HF) as [_ HsF].
  destruct (usernames_spec _ _ HG) as [_ HsG].
  split_and!; try done; try lia.
  - by rewrite (size_split F G), Nat2Z.inj_add.
  - assert (G ∩ F = F ∩ G) as Hcomm.
    { apply set_eq. intros x. rewrite !elem_of_intersection. tauto. }
    by rewrite (size_split G F), Nat2Z.inj_add, Hcomm.
Qed.

(* ===================================================================== *)
(** ** How logs compose                                                   *)
(* ===================================================================== *)

Lemma puts_app t1 t2 : puts (t1 ++ t2) = puts t1 ++ puts t2.
Proof. apply omap_app. Qed.

Lemma deletes_app t1 t2 : deletes (t1 ++ t2) = deletes t1 ++ deletes t2.
Proof. apply omap_app. Qed.

Lemma pauses_app t1 t2 : pauses (t1 ++ t2) = pauses t1 ++ pauses t2.
Proof. apply omap_app. Qed.

Lemma read_only_quiet (t : list event) :
  Forall read_only t → puts t = [] ∧ deletes t = [].
Proof.
  induction 1 as [|e t He _ [IHp IHd]]; [done |].
  destruct e; simpl in *; try done.
Qed.

Lemma not_put_quiet (t : list event) : Forall not_put t → puts t = [].
Proof.
  induction 1 as [|e t He _ IH]; [done |]. destruct e; simpl in *; done.
Qed.

Lemma not_delete_quiet (t : list event) : Forall not_delete t → deletes t = [].
Proof.
  induction 1 as [|e t He _ IH]; [done |]. destruct e; simpl in *; done.
Qed.

Lemma collector_event_read_only l user e :
  collector_event l user e → read_only e.
Proof. by destruct e. Qed.

Lemma read_only_not_put e : read_only e → not_put e.
Proof. by destruct e. Qed.

Lemma read_only_not_delete e : read_only e → not_delete e.
Proof. by destruct e. Qed.

Section Logs.
Context {World : Type} {remote : Requests World}.

(** The log of [bind m k] is the log of [m], followed by the log of [k]
    when [m] returns. *)
Lemma bind_log {A B : Type} (P1 P2 P3 : list event → Prop)
    (m : M A) (k : A → M B) (w : World) :
  (∀ t, P1 t → P3 t) →
  (∀ t1 t2, P1 t1 → P2 t2 → P3 (t1 ++ t2)) →
  P1 (m w).2 →
  (∀ a w', P2 (k a w').2) →
  P3 (bind m k w).2.
Proof.
  intros Hstop Happ Hm Hk. unfold bind.
  destruct (m w) as [[[a|e|] w1] t1]; simpl in *; auto.
  specialize (Hk a w1). destruct (k a w1) as [[o w2] t2]. simpl in *. auto.
Qed.

Lemma bind_all {A B : Type} (Q : event → Prop)
    (m : M A) (k : A → M B) (w : World) :
  Forall Q (m w).2 →
  (∀ a w', Forall Q (k a w').2) →
  Forall Q (bind m k w).2.
Proof.
  apply (bind_log (Forall Q) (Forall Q) (Forall Q)); [done |].
  intros t1 t2 H1 H2. by apply Forall_app.
Qed.

Lemma sleep_log secs (w : World) :
  (sleep secs w).2 = [] ∨ (sleep secs w).2 = [EvSleep secs].
Proof. unfold sleep. destruct (secs <? 0); simpl; auto. Qed.

Lemma lift_log {A : Type} (r : result A) (w : World) : (lift r w).2 = [].
Proof. by destruct r. Qed.

Lemma drain_log fuel l user page acc (w : World) :
  Forall (collector_event l user) (drain fuel l user page acc w).2.
Proof.
  revert page acc w. induction fuel as [|fuel IH]; intros page acc w; simpl;
    [by constructor |].
  unfold bind, requests_get_listing.
  destruct (get_listing l user page 100 w) as [[st body] w1]. simpl.
  destruct (st =? 200); [| by repeat constructor].
  destruct body as [|b body]; [by repeat constructor |]. simpl.
  specialize (IH (page + 1) (acc ++ b :: body) w1).
  destruct (drain fuel l user (page + 1) _ w1) as [[o w2] t2]. simpl in *.
  by repeat constructor.
Qed.

(** A returning collector has paused once, for one second, between any
    two consecutive requests. *)
Lemma drain_pauses fuel l user page acc (w : World) r w' t :
  drain fuel l user page acc w = (Ret r, w', t) →
  ∃ n, length (fetched t) = S n ∧ pauses t = replicate n 1.
Proof.
  revert page acc w t. induction fuel as [|fuel IH]; intros page acc w t;
    simpl; [done |].
  unfold bind, requests_get_listing.
  destruct (get_listing l user page 100 w) as [[st body] w1]. simpl.
  destruct (st =? 200); [| intros [= <- <- <-]; by exists 0%nat].
  destruct body as [|b body]; [intros [= <- <- <-]; by exists 0%nat |]. simpl.
  destruct (drain fuel l user (page + 1) _ w1) as [[o w2] t2] eqn:Hrest.
  intros [= -> -> <-]. apply IH in Hrest as (n & Hlen & Hp).
  exists (S n). simpl. by rewrite Hlen, Hp.
Qed.

End Logs.

(* ===================================================================== *)
(** ** The collectors, seen from their log                                *)
(* ===================================================================== *)

Section CollectorLogs.
Context {World : Type} {remote : Requests World}.
Variable self : config.

Lemma collect_log l fuel (w : World) :
  Forall (collector_event l (py_str (username self))) (collect self l fuel w).2.
Proof. rewrite collect_drain. apply drain_log. Qed.

(** X8.  Whatever the remote answers and however the collection ends, a
    collector only ever requests its own listing, for the configured
    account, 100 entries per page, and otherwise pauses for one second:
    it sends no PUT and no DELETE and requests no profile. *)
Theorem collector_requests_own_listing (fuel : nat) (w : World) :
  Forall (collector_event Followers (py_str (username self)))
         (get_followers self fuel None w).2 ∧
  Forall (collector_event Following (py_str (username self)))
         (get_following self fuel None w).2.
Proof.
  split.
  - apply (collect_log Followers).
  - apply (collect_log Following).
Qed.

(** X9.  A collector that returns has met a request answered with an
    empty page or a status other than 200; what it returns is what the
    pages before that request held, in order; it has requested pages
    1, ..., n and paused for one second between consecutive requests. *)
Theorem collection_returns_only_at_stop (l : listing) (fuel : nat)
    (w w' : World) (r : list user_data) (t : list event) :
  collect self l fuel w = (Ret r, w', t) →
  ∃ n st,
    pages l (py_str (username self)) 1 w n r st w' ∧
    (n ≤ fuel)%nat ∧
    fetched t = seqZ 1 (Z.of_nat n) ∧
    pauses t = replicate (n - 1) 1.
Proof.
  rewrite collect_drain. intros Hrun.
  destruct (drain_returns _ _ _ _ _ _ _ _ _ Hrun)
    as (n & gathered & st & Hpages & -> & Hn).
  destruct (drain_pages _ _ _ _ _ _ _ _ Hpages fuel [] Hn) as (t' & Hrun' & Hf).
  rewrite Hrun in Hrun'. injection Hrun' as <-.
  destruct (drain_pauses _ _ _ _ _ _ _ _ _ Hrun) as (k & Hlen & Hp).
  exists n, st. split_and!; try done.
  rewrite Hp. f_equal. rewrite Hf, length_seqZ in Hlen. lia.
Qed.

End CollectorLogs.

(* ===================================================================== *)
(** ** The action loops, seen from their log                              *)
(* ===================================================================== *)

Section LoopLogs.
Context {World : Type} {remote : Requests World}.
Variable self : config.

Ltac unfold_m :=
  unfold follow_back_step, cleanup_step, get_user_info, follow_user,
    unfollow_user, call_should_skip_user, requests_get_user, requests_put,
    requests_delete, sleep, bind, mret, lift in *.

Ltac follow_cases u w :=
  unfold_m;
  destruct (get_user u w) as [[?st ?body] ?w] eqn:?Hlookup; simpl;
  destruct (_ =? 200) eqn:?Hst; simpl;
  [ destruct (dict_truthy _) eqn:?Htruthy; simpl;
    [ destruct (should_skip_user _) as [[|]|?] eqn:?Hfilter; simpl | ]
  | ];
  try (destruct (put_following u _) as [?st ?w]; simpl;
       destruct (_ =? 204) eqn:?Hput; simpl;
       [ destruct (_ <? 0) eqn:?Hdelay; simpl | ]).

Ltac cleanup_cases u w :=
  unfold_m;
  destruct (should_skip_user _) as [[|]|?] eqn:?Hfilter; simpl;
  try (destruct (delete_following u w) as [?st ?w]; simpl;
       destruct (_ =? 204) eqn:?Hdel; simpl;
       [ destruct (_ <? 0) eqn:?Hdelay; simpl | ]).

Lemma follow_back_step_tally u k (w : World) k' w' t :
  follow_back_step self u k w = (Ret k', w', t) →
  k' = k + len (List.filter succeeded (puts t)) ∧
  pauses t = replicate (length (List.filter succeeded (puts t)))
               (delay_between_actions self).
Proof.
  follow_cases u w; intros [= <- <- <-]; simpl; unfold succeeded, len; simpl;
    rewrite ?Hput; simpl; split; (done || lia).
Qed.

Lemma cleanup_step_tally info u k (w : World) k' w' t :
  cleanup_step self info u k w = (Ret k', w', t) →
  k' = k + len (List.filter succeeded (deletes t)) ∧
  pauses t = replicate (length (List.filter succeeded (deletes t)))
               (delay_between_actions self).
Proof.
  cleanup_cases u w; intros [= <- <- <-]; simpl; unfold succeeded, len; simpl;
    rewrite ?Hdel; simpl; split; (done || lia).
Qed.

(** X10.  When the follow-back loop returns, the count it returns is the
    count it started from plus the number of PUTs answered 204, and it
    has paused once, for the configured delay, per such PUT: failed
    follows and skipped candidates neither count nor cost a pause. *)
Theorem follow_back_loop_tally (cands : list string) (k : Z) (w : World)
    (k' : Z) (w' : World) (t : list event) :
  follow_back_loop self cands k w = (Ret k', w', t) →
  k' = k + len (List.filter succeeded (puts t)) ∧
  pauses t = replicate (length (List.filter succeeded (puts t)))
               (delay_between_actions self).
Proof.
  revert k w t. induction cands as [|u rest IH]; intros k w t; simpl.
  - intros [= <- <- <-]. split; [unfold len; simpl; lia | done].
  - destruct (max_follows_per_run self <=? k).
    { intros [= <- <- <-]. split; [unfold len; simpl; lia | done]. }
    unfold bind at 1.
    destruct (follow_back_step self u k w) as [[[k1| |] w1] t1] eqn:Hstep;
      [| done | done].
    destruct (follow_back_loop self rest k1 w1) as [[o w2] t2] eqn:Hloop.
    intros [= -> -> <-].
    apply follow_back_step_tally in Hstep as [-> Hp1].
    apply IH in Hloop as [-> Hp2].
    rewrite puts_app, pauses_app, List.filter_app, Hp1, Hp2.
    unfold len. rewrite length_app, replicate_add. split; [lia | done].
Qed.

(** X11.  The same for the cleanup loop and its DELETEs. *)
Theorem cleanup_loop_tally (info : gmap string user_data)
    (cands : list string) (k : Z) (w : World)
    (k' : Z) (w' : World) (t : list event) :
  cleanup_loop self info cands k w = (Ret k', w', t) →
  k' = k + len (List.filter succeeded (deletes t)) ∧
  pauses t = replicate (length (List.filter succeeded (deletes t)))
               (delay_between_actions self).
Proof.
  revert k w t. induction cands as [|u rest IH]; intros k w t; simpl.
  - intros [= <- <- <-]. split; [unfold len; simpl; lia | done].
  - destruct (max_unfollows_per_run self <=? k).
    { intros [= <- <- <-]. split; [unfold len; simpl; lia | done]. }
    unfold bind at 1.
    destruct (cleanup_step self info u k w) as [[[k1| |] w1] t1] eqn:Hstep;
      [| done | done].
    destruct (cleanup_loop self info rest k1 w1) as [[o w2] t2] eqn:Hloop.
    intros [= -> -> <-].
    apply cleanup_step_tally in Hstep as [-> Hp1].
    apply IH in Hloop as [-> Hp2].
    rewrite deletes_app, pauses_app, List.filter_app, Hp1, Hp2.
    unfold len. rewrite length_app, replicate_add. split; [lia | done].
Qed.


Lemma follow_back_step_targets u k (w : World) :
  (puts (follow_back_step self u k w).2).*1 `sublist_of` [u] ∧
  deletes (follow_back_step self u k w).2 = [].
Proof.
  follow_cases u w; split; try done; simpl;
    try (by apply sublist_nil_l).
Qed.

Lemma cleanup_step_targets info u k (w : World) :
  (deletes (cleanup_step self info u k w).2).*1 `sublist_of` [u] ∧
  puts (cleanup_step self info u k w).2 = [].
Proof.
  cleanup_cases u w; split; try done; simpl;
    try (by apply sublist_nil_l).
Qed.

Lemma loops_targets (info : gmap string user_data)
    (cands : list string) (k : Z) (w : World) :
  (puts (follow_back_loop self cands k w).2).*1 `sublist_of` cands ∧
  deletes (follow_back_loop self cands k w).2 = [] ∧
  (deletes (cleanup_loop self info cands k w).2).*1 `sublist_of` cands ∧
  puts (cleanup_loop self info cands k w).2 = [].
Proof.
  split_and!.
  - revert k w. induction cands as [|u rest IH]; intros k w; simpl; [done |].
    destruct (max_follows_per_run self <=? k); [apply sublist_nil_l |].
    unfold bind at 1.
    destruct (follow_back_step_targets u k w) as [Hu _].
    destruct (follow_back_step self u k w) as [[[k1| |] w1] t1]; simpl in *;
      try (by apply (sublist_app _ [u] [] rest) in Hu;
           [rewrite app_nil_r in Hu | apply sublist_nil_l]).
    specialize (IH k1 w1).
    destruct (follow_back_loop self rest k1 w1) as [[o w2] t2]; simpl in *.
    rewrite puts_app, fmap_app. by apply (sublist_app _ [u] _ rest).
  - apply (follow_back_loop_log self (λ t, deletes t = [])); [done | |].
    + intros t1 t2 H1 H2. by rewrite deletes_app, H1, H2.
    + intros u k' w'. apply follow_back_step_targets.
  - revert k w. induction cands as [|u rest IH]; intros k w; simpl; [done |].
    destruct (max_unfollows_per_run self <=? k); [apply sublist_nil_l |].
    unfold bind at 1.
    destruct (cleanup_step_targets info u k w) as [Hu _].
    destruct (cleanup_step self info u k w) as [[[k1| |] w1] t1]; simpl in *;
      try (by apply (sublist_app _ [u] [] rest) in Hu;
           [rewrite app_nil_r in Hu | apply sublist_nil_l]).
    specialize (IH k1 w1).
    destruct (cleanup_loop self info rest k1 w1) as [[o w2] t2]; simpl in *.
    rewrite deletes_app, fmap_app. by apply (sublist_app _ [u] _ rest).
  - apply (cleanup_loop_log self (λ t, puts t = [])); [done | |].
    + intros t1 t2 H1 H2. by rewrite puts_app, H1, H2.
    + intros u k' w'. apply cleanup_step_targets.
Qed.

(** X12.  The follow-back loop sends PUTs only, for candidates only, in
    the order of the candidates and at most one per candidate; the
    cleanup loop sends DELETEs only, under the same discipline. *)
Theorem loops_mutate_candidates_once (info : gmap string user_data)
    (cands : list string) (k : Z) (w : World) :
  (puts (follow_back_loop self cands k w).2).*1 `sublist_of` cands ∧
  deletes (follow_back_loop self cands k w).2 = [] ∧
  (deletes (cleanup_loop self info cands k w).2).*1 `sublist_of` cands ∧
  puts (cleanup_loop self info cands k w).2 = [].
Proof. apply loops_targets. Qed.

Lemma dict_falsy (d : user_data) : dict_truthy d = false → d = ∅.
Proof.
  unfold dict_truthy. case_bool_decide; [done | discriminate].
Qed.

(** X13.  The follow-back loop follows nobody the filter marked: every
    PUT it sends is for a user whose profile request, in the same log,
    either was not answered 200 or returned a mapping on which the
    filter answers "do not skip". *)
Theorem follow_back_puts_are_cleared (cands : list string) (k : Z)
    (w : World) (u : string) (st : Z) :
  (u, st) ∈ puts (follow_back_loop self cands k w).2 →
  ∃ st' d,
    EvGetUser u st' d ∈ (follow_back_loop self cands k w).2 ∧
    (st' ≠ 200 ∨ should_skip_user d = Ok false).
Proof.
  revert u st.
  apply (follow_back_loop_log self (λ t, ∀ u st, (u, st) ∈ puts t →
           ∃ st' d, EvGetUser u st' d ∈ t ∧
                    (st' ≠ 200 ∨ should_skip_user d = Ok false))).
  - intros u st Hin. by apply elem_of_nil in Hin.
  - intros t1 t2 H1 H2 u st Hin. rewrite puts_app in Hin.
    apply elem_of_app in Hin as [Hin | Hin].
    + destruct (H1 _ _ Hin) as (st' & d & Hd & Hc).
      exists st', d. split; [apply elem_of_app; by left | done].
    + destruct (H2 _ _ Hin) as (st' & d & Hd & Hc).
      exists st', d. split; [apply elem_of_app; by right | done].
  - intros u0 k0 w0 u st. follow_cases u0 w0; intros Hin;
      try (by apply elem_of_nil in Hin);
      apply list_elem_of_singleton in Hin; injection Hin as -> ->;
      eexists _, _; (split; [by left |]).
    all: try (right; done).
    all: try (right; apply dict_falsy in Htruthy; by subst).
    all: left; by apply Z.eqb_neq.
Qed.

(** X14.  A candidate whose profile resolves to a mapping the filter
    does not skip is followed: the PUT for that user is in the log. *)
Theorem follow_back_attempts_cleared (cands : list string) (k : Z)
    (w : World) (u : string) (d : user_data) :
  EvGetUser u 200 d ∈ (follow_back_loop self cands k w).2 →
  should_skip_user d = Ok false →
  u ∈ (puts (follow_back_loop self cands k w).2).*1.
Proof.
  revert u d.
  apply (follow_back_loop_log self (λ t, ∀ u d, EvGetUser u 200 d ∈ t →
           should_skip_user d = Ok false → u ∈ (puts t).*1)).
  - intros u d Hin. by apply elem_of_nil in Hin.
  - intros t1 t2 H1 H2 u d Hin Hd. rewrite puts_app, fmap_app.
    apply elem_of_app. apply elem_of_app in Hin as [Hin | Hin]; eauto.
  - intros u0 k0 w0 u d. follow_cases u0 w0; intros Hin Hd;
      repeat (apply elem_of_cons in Hin as [Hin | Hin]; [try simplify_eq |]);
      try (by apply elem_of_nil in Hin);
      try (by left); congruence.
Qed.

(** X15.  The cleanup loop unfollows nobody the filter marked: every
    DELETE it sends is for a user on whose cached record (the empty
    mapping when there is none) the filter answers "do not skip". *)
Theorem cleanup_deletes_are_cleared (info : gmap string user_data)
    (cands : list string) (k : Z) (w : World) (u : string) (st : Z) :
  (u, st) ∈ deletes (cleanup_loop self info cands k w).2 →
  should_skip_user (default ∅ (info !! u)) = Ok false.
Proof.
  revert u st.
  apply (cleanup_loop_log self (λ t, ∀ u st, (u, st) ∈ deletes t →
           should_skip_user (default ∅ (info !! u)) = Ok false)).
  - intros u st Hin. by apply elem_of_nil in Hin.
  - intros t1 t2 H1 H2 u st Hin. rewrite deletes_app in Hin.
    apply elem_of_app in Hin as [Hin | Hin]; eauto.
  - intros u0 k0 w0 u st. cleanup_cases u0 w0; intros Hin;
      try (by apply elem_of_nil in Hin);
      apply list_elem_of_singleton in Hin; by injection Hin as -> ->.
Qed.

(** X16.  With a non-negative delay, every PUT or DELETE answered 204 is
    directly followed, in the log of its loop, by a pause of the
    configured delay. *)
Theorem successful_mutation_is_paced (info : gmap string user_data)
    (cands : list string) (k : Z) (w : World) :
  0 ≤ delay_between_actions self →
  followed_by mutation_succeeded (pause_of_length (delay_between_actions self))
    (follow_back_loop self cands k w).2 ∧
  followed_by mutation_succeeded (pause_of_length (delay_between_actions self))
    (cleanup_loop self info cands k w).2.
Proof.
  intros Hdelay0. split.
  - apply follow_back_loop_log;
      [apply followed_by_nil | apply followed_by_app |].
    intros u0 k0 w0. follow_cases u0 w0; intros i ev Hi HQ;
      repeat (destruct i as [|i]; simpl in Hi; simplify_eq; simpl in HQ;
              try done);
      try (apply Z.ltb_lt in Hdelay; lia);
      try (apply Z.eqb_neq in Hput; done);
      by eexists.
  - apply cleanup_loop_log;
      [apply followed_by_nil | apply followed_by_app |].
    intros u0 k0 w0. cleanup_cases u0 w0; intros i ev Hi HQ;
      repeat (destruct i as [|i]; simpl in Hi; simplify_eq; simpl in HQ;
              try done);
      try (apply Z.ltb_lt in Hdelay; lia);
      try (apply Z.eqb_neq in Hdel; done);
      by eexists.
Qed.

End LoopLogs.

(* ===================================================================== *)
(** ** The phases                                                         *)
(* ===================================================================== *)

Section Phases.
Context {World : Type} {remote : Requests World} {interp : PySet}.
Variable self : config.

Lemma collector_quiet l fuel (w : World) :
  puts (collect self l fuel w).2 = [] ∧ deletes (collect self l fuel w).2 = [].
Proof.
  apply read_only_quiet.
  eapply Forall_impl; [apply collect_log |].
  intros e. apply collector_event_read_only.
Qed.

Lemma cleanup_loop_negative_cap info cands (w : World) :
  max_unfollows_per_run self < 0 →
  cleanup_loop self info cands 0 w = (Ret 0, w, []).
Proof.
  intros Hc. destruct cands as [|u rest]; simpl; [done |].
  by destruct (Z.leb_spec (max_unfollows_per_run self) 0); [| lia].
Qed.

Lemma py_slice_to_length {A : Type} (l : list A) (c : Z) :
  0 ≤ c → len (py_slice_to l c) ≤ c.
Proof. intros Hc. destruct (py_slice_to_nonneg l c Hc) as [_ ->]. lia. Qed.

Lemma difference_empty_subseteq (F G : gset string) :
  F ∖ G = ∅ ↔ F ⊆ G.
Proof.
  split.
  - intros He x Hx. destruct (decide (x ∈ G)) as [|Hn]; [done |].
    assert (x ∈ F ∖ G) as Hd by (by apply elem_of_difference).
    rewrite He in Hd. by apply elem_of_empty in Hd.
  - intros Hs. apply set_eq. intros x.
    rewrite elem_of_difference, elem_of_empty. split; [| done].
    intros [Hx Hn]. apply Hn, Hs, Hx.
Qed.

(** What the follow-back phase does once both collections have returned
    and their logins are read. *)
Lemma follow_back_followers_run fuel (w : World) fr w1 t1 fg w2 t2 F G :
  get_followers self fuel None w = (Ret fr, w1, t1) →
  get_following self fuel None w1 = (Ret fg, w2, t2) →
  usernames fr = Ok F →
  usernames fg = Ok G →
  (follow_back_followers self fuel w).2 =
    t1 ++ t2 ++
    (if bool_decide (to_follow_back F G = ∅) then []
     else (follow_back_loop self
             (py_slice_to (list_of_set (to_follow_back F G))
                (max_follows_per_run self)) 0 w2).2).
Proof.
  intros H1 H2 HF HG. unfold follow_back_followers, bind at 1.
  rewrite H1. unfold bind at 1. rewrite H2.
  unfold bind at 1, lift at 1. rewrite HF.
  unfold bind at 1, lift at 1. rewrite HG. simpl.
  case_bool_decide; unfold bind, mret; simpl; [done |].
  destruct (follow_back_loop self _ 0 w2) as [[[?| |] ?] t3]; simpl;
    by rewrite ?app_nil_r.
Qed.

Lemma cleanup_non_followers_run fuel (w : World) fr w1 t1 fg w2 t2 F G info :
  get_followers self fuel None w = (Ret fr, w1, t1) →
  get_following self fuel None w1 = (Ret fg, w2, t2) →
  usernames fr = Ok F →
  usernames fg = Ok G →
  info_map fg ∅ = Ok info →
  (cleanup_non_followers self fuel w).2 =
    t1 ++ t2 ++
    (if bool_decide (non_followers F G = ∅) then []
     else (cleanup_loop self info
             (py_slice_to (list_of_set (non_followers F G))
                (max_unfollows_per_run self)) 0 w2).2).
Proof.
  intros H1 H2 HF HG Hinfo. unfold cleanup_non_followers, bind at 1.
  rewrite H1. unfold bind at 1. rewrite H2.
  unfold bind at 1, lift at 1. rewrite HF.
  unfold bind at 1, lift at 1. rewrite HG. simpl.
  case_bool_decide; [by unfold mret |].
  unfold bind at 1, lift at 1. rewrite Hinfo. simpl.
  unfold bind, mret.
  destruct (cleanup_loop self info _ 0 w2) as [[[?| |] ?] t3]; simpl;
    by rewrite ?app_nil_r.
Qed.

(** X17.  Nothing to do, nothing done: when every follower is already
    followed, the follow-back phase returns after the two collections
    without requesting a profile or sending a PUT; when everyone followed
    follows back, the cleanup phase returns likewise without a DELETE. *)
Theorem phases_stop_when_reconciled (fuel : nat) (w : World)
    (fr fg : list user_data) (w1 w2 : World) (t1 t2 : list event)
    (F G : gset string) :
  get_followers self fuel None w = (Ret fr, w1, t1) →
  get_following self fuel None w1 = (Ret fg, w2, t2) →
  usernames fr = Ok F →
  usernames fg = Ok G →
  (F ⊆ G → follow_back_followers self fuel w = (Ret tt, w2, t1 ++ t2)) ∧
  (G ⊆ F → cleanup_non_followers self fuel w = (Ret tt, w2, t1 ++ t2)).
Proof.
  intros H1 H2 HF HG. split; intros Hsub.
  - unfold follow_back_followers, bind at 1.
    rewrite H1. unfold bind at 1. rewrite H2.
    unfold bind at 1, lift at 1. rewrite HF.
    unfold bind at 1, lift at 1. rewrite HG. simpl.
    rewrite bool_decide_eq_true_2; [unfold mret; simpl; by rewrite app_nil_r |].
    by apply difference_empty_subseteq.
  - unfold cleanup_non_followers, bind at 1.
    rewrite H1. unfold bind at 1. rewrite H2.
    unfold bind at 1, lift at 1. rewrite HF.
    unfold bind at 1, lift at 1. rewrite HG. simpl.
    rewrite bool_decide_eq_true_2; [unfold mret; simpl; by rewrite app_nil_r |].
    by apply difference_empty_subseteq.
Qed.


Lemma collector_unfiltered l fuel (w : World) :
  filtered (collect self l fuel w).2 = [].
Proof.
  pose proof (collect_log self l fuel w) as Hlog.
  induction Hlog as [|e t He _ IH]; [done |]. by destruct e.
Qed.

(** X18.  Once both collections have returned, the follow-back phase
    sends PUTs only for followers that are not followed yet, at most one
    each, and no DELETE. *)
Theorem follow_back_targets (fuel : nat) (w : World)
    (fr fg : list user_data) (w1 w2 : World) (t1 t2 : list event)
    (F G : gset string) :
  get_followers self fuel None w = (Ret fr, w1, t1) →
  get_following self fuel None w1 = (Ret fg, w2, t2) →
  usernames fr = Ok F →
  usernames fg = Ok G →
  NoDup (puts (follow_back_followers self fuel w).2).*1 ∧
  (∀ u, u ∈ (puts (follow_back_followers self fuel w).2).*1 →
        u ∈ F ∧ u ∉ G) ∧
  deletes (follow_back_followers self fuel w).2 = [].
Proof.
  intros H1 H2 HF HG.
  rewrite (follow_back_followers_run _ _ _ _ _ _ _ _ _ _ H1 H2 HF HG).
  destruct (collector_quiet Followers fuel w) as [Hp1 Hd1].
  destruct (collector_quiet Following fuel w1) as [Hp2 Hd2].
  simpl in *. rewrite H1 in Hp1, Hd1. rewrite H2 in Hp2, Hd2. simpl in *.
  rewrite !puts_app, !deletes_app, Hp1, Hp2, Hd1, Hd2. simpl.
  case_bool_decide; simpl.
  { split_and!; [constructor | | done]. intros u Hu. by apply elem_of_nil in Hu. }
  destruct (loops_targets self ∅
              (py_slice_to (list_of_set (to_follow_back F G))
                 (max_follows_per_run self)) 0 w2) as (Hsub & Hdel & _).
  destruct (follow_back_candidates F G (max_follows_per_run self))
    as [Hnd Hmem].
  split_and!; [| | done].
  - by eapply sublist_NoDup.
  - intros u Hu. apply Hmem. by eapply elem_of_sublist.
Qed.

(** X19.  Once both collections have returned, the cleanup phase sends
    DELETEs only for followed users that do not follow back, at most one
    each, and no PUT; the filter always receives a record of the
    following listing, the record of such a user, never the empty
    default. *)
Theorem cleanup_targets (fuel : nat) (w : World)
    (fr fg : list user_data) (w1 w2 : World) (t1 t2 : list event)
    (F G : gset string) :
  get_followers self fuel None w = (Ret fr, w1, t1) →
  get_following self fuel None w1 = (Ret fg, w2, t2) →
  usernames fr = Ok F →
  usernames fg = Ok G →
  NoDup (deletes (cleanup_non_followers self fuel w).2).*1 ∧
  (∀ u, u ∈ (deletes (cleanup_non_followers self fuel w).2).*1 →
        u ∈ G ∧ u ∉ F) ∧
  puts (cleanup_non_followers self fuel w).2 = [] ∧
  (∀ d, d ∈ filtered (cleanup_non_followers self fuel w).2 →
        d ∈ fg ∧ ∃ u, d !! "login" = Some (VStr u) ∧ u ∈ G ∧ u ∉ F).
Proof.
  intros H1 H2 HF HG.
  destruct (info_map_succeeds fg ∅ G HG) as [info Hinfo].
  rewrite (cleanup_non_followers_run _ _ _ _ _ _ _ _ _ _ _ H1 H2 HF HG Hinfo).
  destruct (collector_quiet Followers fuel w) as [Hp1 Hd1].
  destruct (collector_quiet Following fuel w1) as [Hp2 Hd2].
  pose proof (collector_unfiltered Followers fuel w) as Hf1.
  pose proof (collector_unfiltered Following fuel w1) as Hf2.
  simpl in *. rewrite H1 in Hp1, Hd1, Hf1. rewrite H2 in Hp2, Hd2, Hf2.
  simpl in *.
  rewrite !puts_app, !deletes_app, !filtered_app, Hp1, Hp2, Hd1, Hd2, Hf1, Hf2.
  simpl.
  case_bool_decide; simpl.
  { split_and!; [constructor | | done |];
      intros x Hx; by apply elem_of_nil in Hx. }
  destruct (loops_targets self info
              (py_slice_to (list_of_set (non_followers F G))
                 (max_unfollows_per_run self)) 0 w2) as (_ & _ & Hsub & Hput).
  destruct (follow_back_candidates G F (max_unfollows_per_run self))
    as [Hnd Hmem].
  split_and!; [| | done |].
  - by eapply sublist_NoDup.
  - intros u Hu. apply Hmem. by eapply elem_of_sublist.
  - intros d Hd.
    eapply elem_of_prefix in Hd; [| apply cleanup_loop_filtered].
    apply list_elem_of_fmap in Hd as (u & -> & Hu).
    apply Hmem in Hu as [HuG HuF].
    destruct (info_map_spec _ _ _ HG Hinfo) as [Hdom Hrec].
    rewrite <- Hdom in HuG. apply elem_of_dom in HuG as [d Hd].
    rewrite Hd. simpl. destruct (Hrec _ _ Hd) as [Hin Hl].
    split; [done |]. exists u. rewrite <- Hdom.
    split_and!; [done | | done]. apply elem_of_dom. eauto.
Qed.

Lemma within_read_only (t : list event) : Forall read_only t → within 0 0 t.
Proof.
  intros [Hp Hd]%read_only_quiet. unfold within. by rewrite Hp, Hd.
Qed.

Lemma within_app a b a' b' t1 t2 :
  within a b t1 → within a' b' t2 → within (a + a') (b + b') (t1 ++ t2).
Proof.
  unfold within, len. intros [H1 H2] [H3 H4].
  rewrite puts_app, deletes_app, !length_app. lia.
Qed.

Lemma within_mono a b a' b' t :
  within a b t → a ≤ a' → b ≤ b' → within a' b' t.
Proof. unfold within. intros [H1 H2] Ha Hb. lia. Qed.

Lemma bind_within {A B : Type} a b a' b' (m : M A) (k : A → M B) (w : World) :
  0 ≤ a' → 0 ≤ b' →
  within a b (m w).2 →
  (∀ x w', within a' b' (k x w').2) →
  within (a + a') (b + b') (bind m k w).2.
Proof.
  intros Ha Hb. apply (bind_log (within a b) (within a' b')).
  - intros t Ht. eapply within_mono; [done | lia | lia].
  - apply within_app.
Qed.

Lemma follow_back_loop_within cands (w : World) :
  within (Z.max 0 (max_follows_per_run self)) 0
    (follow_back_loop self (py_slice_to cands (max_follows_per_run self)) 0 w).2.
Proof.
  destruct (Z.lt_ge_cases (max_follows_per_run self) 0) as [Hneg | Hpos].
  - rewrite follow_back_loop_negative_cap by done. unfold within, len. simpl. lia.
  - destruct (loops_targets self ∅
                (py_slice_to cands (max_follows_per_run self)) 0 w)
      as (Hsub & Hdel & _).
    unfold within. rewrite Hdel. split; [| done]. apply sublist_length in Hsub.
    rewrite length_fmap in Hsub.
    pose proof (py_slice_to_length cands _ Hpos). unfold len in *. lia.
Qed.

Lemma cleanup_loop_within info cands (w : World) :
  within 0 (Z.max 0 (max_unfollows_per_run self))
    (cleanup_loop self info
       (py_slice_to cands (max_unfollows_per_run self)) 0 w).2.
Proof.
  destruct (Z.lt_ge_cases (max_unfollows_per_run self) 0) as [Hneg | Hpos].
  - rewrite cleanup_loop_negative_cap by done. unfold within, len. simpl. lia.
  - destruct (loops_targets self info
                (py_slice_to cands (max_unfollows_per_run self)) 0 w)
      as (_ & _ & Hsub & Hput).
    unfold within. rewrite Hput. split; [done |]. apply sublist_length in Hsub.
    rewrite length_fmap in Hsub.
    pose proof (py_slice_to_length cands _ Hpos). unfold len in *. lia.
Qed.

Lemma collect_within l fuel (w : World) : within 0 0 (collect self l fuel w).2.
Proof.
  apply within_read_only. eapply Forall_impl; [apply collect_log |].
  intros e. apply collector_event_read_only.
Qed.

Lemma lift_within {A : Type} (r : result A) (w : World) :
  within 0 0 (lift r w).2.
Proof. rewrite lift_log. by split. Qed.

Lemma mret_within {A : Type} (x : A) (w : World) : within 0 0 (mret x w).2.
Proof. by split. Qed.

Lemma follow_back_followers_within fuel (w : World) :
  within (Z.max 0 (max_follows_per_run self)) 0
    (follow_back_followers self fuel w).2.
Proof.
  unfold follow_back_followers.
  eapply within_mono;
    [apply (bind_within 0 0 (Z.max 0 (max_follows_per_run self)) 0);
       [lia | lia | apply (collect_within Followers) |] | lia | lia].
  intros fr w1.
  eapply within_mono;
    [apply (bind_within 0 0 (Z.max 0 (max_follows_per_run self)) 0);
       [lia | lia | apply (collect_within Following) |] | lia | lia].
  intros fg w2.
  eapply within_mono;
    [apply (bind_within 0 0 (Z.max 0 (max_follows_per_run self)) 0);
       [lia | lia | apply lift_within |] | lia | lia].
  intros F w3.
  eapply within_mono;
    [apply (bind_within 0 0 (Z.max 0 (max_follows_per_run self)) 0);
       [lia | lia | apply lift_within |] | lia | lia].
  intros G w4. simpl.
  case_bool_decide.
  - eapply within_mono; [apply mret_within | lia | lia].
  - eapply within_mono;
      [apply (bind_within (Z.max 0 (max_follows_per_run self)) 0 0 0);
         [lia | lia | apply follow_back_loop_within
         | intros; apply mret_within] | lia | lia].
Qed.

Lemma cleanup_non_followers_within fuel (w : World) :
  within 0 (Z.max 0 (max_unfollows_per_run self))
    (cleanup_non_followers self fuel w).2.
Proof.
  unfold cleanup_non_followers.
  eapply within_mono;
    [apply (bind_within 0 0 0 (Z.max 0 (max_unfollows_per_run self)));
       [lia | lia | apply (collect_within Followers) |] | lia | lia].
  intros fr w1.
  eapply within_mono;
    [apply (bind_within 0 0 0 (Z.max 0 (max_unfollows_per_run self)));
       [lia | lia | apply (collect_within Following) |] | lia | lia].
  intros fg w2.
  eapply within_mono;
    [apply (bind_within 0 0 0 (Z.max 0 (max_unfollows_per_run self)));
       [lia | lia | apply lift_within |] | lia | lia].
  intros F w3.
  eapply within_mono;
    [apply (bind_within 0 0 0 (Z.max 0 (max_unfollows_per_run self)));
       [lia | lia | apply lift_within |] | lia | lia].
  intros G w4. simpl.
  case_bool_decide.
  - eapply within_mono; [apply mret_within | lia | lia].
  - eapply within_mono;
      [apply (bind_within 0 0 0 (Z.max 0 (max_unfollows_per_run self)));
         [lia | lia | apply lift_within |] | lia | lia].
    intros info w5.
    eapply within_mono;
      [apply (bind_within 0 (Z.max 0 (max_unfollows_per_run self)) 0 0);
         [lia | lia | apply cleanup_loop_within
         | intros; apply mret_within] | lia | lia].
Qed.

(** X20.  Whatever the remote answers, a follow-back phase sends at most
    max(0, max_follows_per_run) PUTs and no DELETE, and a cleanup phase
    at most max(0, max_unfollows_per_run) DELETEs and no PUT. *)
Theorem phases_stay_within_caps (fuel : nat) (w : World) :
  within (Z.max 0 (max_follows_per_run self)) 0
    (follow_back_followers self fuel w).2 ∧
  within 0 (Z.max 0 (max_unfollows_per_run self))
    (cleanup_non_followers self fuel w).2.
Proof.
  split; [apply follow_back_followers_within | apply cleanup_non_followers_within].
Qed.

End Phases.

(* ===================================================================== *)
(** ** A whole run                                                        *)
(* ===================================================================== *)

Section Run.
Context {World : Type} {remote : Requests World} {interp : PySet}.
Variable self : config.

Lemma within_no_deletes a t : within a 0 t → deletes t = [].
Proof.
  unfold within, len. intros [_ Hd]. destruct (deletes t); [done |].
  simpl in Hd. lia.
Qed.

Lemma within_no_puts b t : within 0 b t → puts t = [].
Proof.
  unfold within, len. intros [Hp _]. destruct (puts t); [done |].
  simpl in Hp. lia.
Qed.

Lemma sleep_within secs (w : World) : within 0 0 (sleep secs w).2.
Proof. destruct (sleep_log secs w) as [-> | ->]; by split. Qed.

Lemma get_statistics_within fuel (w : World) :
  within 0 0 (get_statistics self fuel w).2.
Proof.
  unfold get_statistics.
  apply (bind_within 0 0 0 0); [lia | lia | apply (collect_within self Followers) |].
  intros fr w1.
  apply (bind_within 0 0 0 0); [lia | lia | apply (collect_within self Following) |].
  intros fg w2. apply lift_within.
Qed.

(** X21.  The read-only methods: [get_statistics], [get_user_info] and
    [check_if_following] send neither a PUT nor a DELETE, whatever the
    remote answers. *)
Theorem queries_mutate_nothing (fuel : nat) (user : string) (w : World) :
  within 0 0 (get_statistics self fuel w).2 ∧
  within 0 0 (get_user_info user w).2 ∧
  within 0 0 (check_if_following user w).2.
Proof.
  split_and!.
  - apply get_statistics_within.
  - unfold get_user_info, bind, requests_get_user, mret.
    destruct (get_user user w) as [[st body] w']. by split.
  - unfold check_if_following, bind, requests_get_following, mret.
    destruct (get_following_rel user w) as [st w']. by split.
Qed.

Lemma follow_part_within fuel (go : bool) (w : World) :
  within (if go then Z.max 0 (max_follows_per_run self) else 0) 0
    ((if go then bind (follow_back_followers self fuel) (λ _, sleep 10)
      else mret tt) w).2.
Proof.
  destruct go; [| apply mret_within].
  eapply within_mono;
    [apply (bind_within (Z.max 0 (max_follows_per_run self)) 0 0 0);
       [lia | lia | apply follow_back_followers_within
       | intros; apply sleep_within] | lia | lia].
Qed.

Lemma cleanup_part_within fuel (go : bool) (w : World) :
  within 0 (if go then Z.max 0 (max_unfollows_per_run self) else 0)
    ((if go then cleanup_non_followers self fuel else mret tt) w).2.
Proof.
  destruct go; [apply cleanup_non_followers_within | apply mret_within].
Qed.

Lemma final_part_within fuel (go : bool) (w : World) :
  within 0 0
    ((if go then bind (get_statistics self fuel) (λ _, mret tt)
      else mret tt) w).2.
Proof.
  destruct go; [| apply mret_within].
  apply (bind_within 0 0 0 0); [lia | lia | apply get_statistics_within |].
  intros; apply mret_within.
Qed.

(** X22.  A run sends at most max(0, max_follows_per_run) PUTs, and none
    unless the action is 'both' or 'follow_back'; at most
    max(0, max_unfollows_per_run) DELETEs, and none unless the action is
    'both' or 'cleanup'.  With any other action a run only reads. *)
Theorem run_automation_within_caps (fuel : nat) (action : string) (w : World) :
  within
    (if bool_decide (action = "both") || bool_decide (action = "follow_back")
     then Z.max 0 (max_follows_per_run self) else 0)
    (if bool_decide (action = "both") || bool_decide (action = "cleanup")
     then Z.max 0 (max_unfollows_per_run self) else 0)
    (run_automation self fuel action w).2.
Proof.
  unfold run_automation.
  set (a := if bool_decide (action = "both")
               || bool_decide (action = "follow_back")
            then Z.max 0 (max_follows_per_run self) else 0).
  set (b := if bool_decide (action = "both") || bool_decide (action = "cleanup")
            then Z.max 0 (max_unfollows_per_run self) else 0).
  assert (0 ≤ a) as Ha by (unfold a; case_match; lia).
  assert (0 ≤ b) as Hb by (unfold b; case_match; lia).
  destruct (negb (str_truthy (token self)) || negb (str_truthy (username self))).
  { eapply within_mono; [apply mret_within | lia | lia]. }
  eapply within_mono;
    [apply (bind_within 0 0 a b);
       [lia | lia | apply get_statistics_within |] | lia | lia].
  intros st0 w1.
  eapply within_mono;
    [apply (bind_within a 0 0 b);
       [lia | lia | apply follow_part_within |] | lia | lia].
  intros x w2.
  eapply within_mono;
    [apply (bind_within 0 b 0 0);
       [lia | lia | apply cleanup_part_within
       | intros; apply final_part_within] | lia | lia].
Qed.

(** X23.  Without a token or without a username (unset or empty) neither
    [run_automation] nor [main] sends any request: both return at once. *)
Theorem no_request_without_configuration (fuel : nat) (action : string)
    (env_action : option string) (w : World) :
  str_truthy (token self) = false ∨ str_truthy (username self) = false →
  run_automation self fuel action w = (Ret tt, w, []) ∧
  main self fuel env_action w = (Ret tt, w, []).
Proof.
  unfold main, run_automation.
  intros [-> | ->]; simpl; [done |].
  destruct (str_truthy (token self)); simpl; done.
Qed.

(** X24.  In a run, follows come before unfollows: the log splits into a
    first part without any DELETE and a second part without any PUT. *)
Theorem run_follows_before_unfollows (fuel : nat) (action : string)
    (w : World) :
  follows_before_unfollows (run_automation self fuel action w).2.
Proof.
  unfold run_automation.
  destruct (negb (str_truthy (token self)) || negb (str_truthy (username self))).
  { by exists [], []. }
  apply (bind_log (λ t, deletes t = []) follows_before_unfollows).
  - intros t Ht. exists t, []. by rewrite app_nil_r.
  - intros t1 t2 H1 (ta & tb & -> & Ha & Hb).
    exists (t1 ++ ta), tb. rewrite app_assoc, deletes_app, H1, Ha. done.
  - eapply within_no_deletes, get_statistics_within.
  - intros st0 w1.
    apply (bind_log (λ t, deletes t = []) (λ t, puts t = [])).
    + intros t Ht. exists t, []. by rewrite app_nil_r.
    + intros t1 t2 H1 H2. by exists t1, t2.
    + eapply within_no_deletes, follow_part_within.
    + intros x w2.
      apply (bind_log (λ t, puts t = []) (λ t, puts t = [])).
      * done.
      * intros t1 t2 H1 H2. by rewrite puts_app, H1, H2.
      * eapply within_no_puts, cleanup_part_within.
      * intros y w3. eapply within_no_puts, final_part_within.
Qed.

End Run.

(* ===================================================================== *)
(** ** Concrete runs for the further properties                           *)
(* ===================================================================== *)

Lemma should_skip_user_reads_three_fields_witness :
  should_skip_user {[ "followers" := VInt 5; "login" := VStr "x" ]}
  = should_skip_user {[ "followers" := VInt 5; "login" := VStr "x";
                        "bio" := VStr "hello" ]}.
Proof.
  apply (should_skip_user_reads_three_fields
           {[ "followers" := VInt 5; "login" := VStr "x" ]}
           {[ "followers" := VInt 5; "login" := VStr "x";
              "bio" := VStr "hello" ]}); reflexivity.
Defined.

Lemma should_skip_user_ignores_login_case_witness :
  should_skip_user (<[ "login" := VStr "GitHub" ]> (profile "x" 10 "Organization"))
  = should_skip_user (<[ "login" := VStr "github" ]> (profile "x" 10 "Organization")).
Proof.
  apply (should_skip_user_ignores_login_case
           (profile "x" 10 "Organization") "GitHub" "github").
  reflexivity.
Defined.

Lemma usernames_members_witness :
  (∀ u, u ∈ ({[ "a" ]} ∪ ({[ "b" ]} ∪ ({[ "a" ]} ∪ ∅)) : gset string) ↔
        ∃ d, d ∈ [entry "a"; entry "b"; entry "a"] ∧
             d !! "login" = Some (VStr u)) ∧
  (size ({[ "a" ]} ∪ ({[ "b" ]} ∪ ({[ "a" ]} ∪ ∅)) : gset string)
   ≤ length [entry "a"; entry "b"; entry "a"])%nat.
Proof.
  apply (usernames_members [entry "a"; entry "b"; entry "a"]).
  reflexivity.
Defined.

Lemma info_map_records_witness :
  dom (<[ "b" := entry "b" ]> (<[ "a" := entry "a" ]> ∅)
         : gmap string user_data)
  = ({[ "a" ]} ∪ ({[ "b" ]} ∪ ∅) : gset string) ∧
  ∀ u d,
    (<[ "b" := entry "b" ]> (<[ "a" := entry "a" ]> ∅)
       : gmap string user_data) !! u = Some d →
    d ∈ [entry "a"; entry "b"] ∧ d !! "login" = Some (VStr u).
Proof.
  apply (info_map_records [entry "a"; entry "b"]); reflexivity.
Defined.

Lemma info_map_last_wins_witness :
  (<[ "b" := entry "b" ]>
     (<[ "a" := <[ "id" := VInt 2 ]> (entry "a") ]>
        (<[ "a" := entry "a" ]> ∅)) : gmap string user_data) !! "a"
  = Some (<[ "id" := VInt 2 ]> (entry "a")).
Proof.
  apply (info_map_last_wins [entry "a"] [entry "b"]
           (<[ "id" := VInt 2 ]> (entry "a")) "a").
  - reflexivity.
  - intros d' Hd'. apply list_elem_of_singleton in Hd' as ->. discriminate.
  - reflexivity.
Defined.

Lemma statistics_counts_witness :
  ∃ F G,
    usernames [entry "A"; entry "B"; entry "C"] = Ok F ∧
    usernames [entry "B"; entry "C"; entry "D"] = Ok G ∧
    2 + 1 = Z.of_nat (size F) ∧
    2 + 1 = Z.of_nat (size G) ∧
    Z.of_nat (size F) ≤ 3 ∧
    Z.of_nat (size G) ≤ 3.
Proof.
  apply (statistics_counts [entry "A"; entry "B"; entry "C"]
           [entry "B"; entry "C"; entry "D"]
           {| followers_count := 3; following_count := 3;
              mutual_follows := 2; only_followers := 1; only_following := 1;
              follow_ratio := Qmake 3 3 |}).
  vm_compute. reflexivity.
Defined.

Lemma collection_returns_only_at_stop_witness :
  ∃ n st,
    pages (remote := sim_requests small) Following "me" 1 tt n
      [entry "a"; entry "b"] st tt ∧
    (n ≤ 7)%nat ∧
    fetched (collect (remote := sim_requests small) defaults Following 7 tt).2
      = seqZ 1 (Z.of_nat n) ∧
    pauses (collect (remote := sim_requests small) defaults Following 7 tt).2
      = replicate (n - 1) 1.
Proof.
  apply (collection_returns_only_at_stop (remote := sim_requests small)
           defaults Following 7 tt tt [entry "a"; entry "b"]).
  reflexivity.
Defined.

Lemma follow_back_loop_tally_witness :
  2 = 0 + len (List.filter succeeded
                 (puts (follow_back_loop (remote := sim_requests calm) tight
                          ["a"; "b"] 0 tt).2)) ∧
  pauses (follow_back_loop (remote := sim_requests calm) tight
            ["a"; "b"] 0 tt).2
  = replicate
      (length (List.filter succeeded
                 (puts (follow_back_loop (remote := sim_requests calm) tight
                          ["a"; "b"] 0 tt).2)))
      5.
Proof.
  apply (follow_back_loop_tally (remote := sim_requests calm) tight
           ["a"; "b"] 0 tt 2 tt).
  reflexivity.
Defined.

Lemma cleanup_loop_tally_witness :
  0 = 0 + len (List.filter succeeded
                 (deletes (cleanup_loop (remote := sim_requests mixed) tight ∅
                             ["c"] 0 tt).2)) ∧
  pauses (cleanup_loop (remote := sim_requests mixed) tight ∅ ["c"] 0 tt).2
  = replicate
      (length (List.filter succeeded
                 (deletes (cleanup_loop (remote := sim_requests mixed) tight ∅
                             ["c"] 0 tt).2)))
      5.
Proof.
  apply (cleanup_loop_tally (remote := sim_requests mixed) tight ∅
           ["c"] 0 tt 0 tt).
  reflexivity.
Defined.

Lemma follow_back_puts_are_cleared_witness :
  ∃ st' d,
    EvGetUser "b" st' d ∈
      (follow_back_loop (remote := sim_requests mixed) defaults
         ["a"; "b"] 0 tt).2 ∧
    (st' ≠ 200 ∨ should_skip_user d = Ok false).
Proof.
  apply (follow_back_puts_are_cleared (remote := sim_requests mixed) defaults
           ["a"; "b"] 0 tt "b" 204).
  vm_compute. repeat constructor.
Defined.

Lemma follow_back_attempts_cleared_witness :
  "b" ∈ (puts (follow_back_loop (remote := sim_requests mixed) defaults
                 ["a"; "b"] 0 tt).2).*1.
Proof.
  apply (follow_back_attempts_cleared (remote := sim_requests mixed) defaults
           ["a"; "b"] 0 tt "b" (profile "b" 10 "User")).
  - vm_compute. repeat constructor.
  - reflexivity.
Defined.

Lemma cleanup_deletes_are_cleared_witness :
  should_skip_user (default ∅ ((∅ : gmap string user_data) !! "c")) = Ok false.
Proof.
  apply (cleanup_deletes_are_cleared (remote := sim_requests mixed) defaults ∅
           ["c"] 0 tt "c" 404).
  vm_compute. repeat constructor.
Defined.

Lemma successful_mutation_is_paced_witness :
  followed_by mutation_succeeded (pause_of_length 5)
    (follow_back_loop (remote := sim_requests calm) defaults ["a"] 0 tt).2 ∧
  followed_by mutation_succeeded (pause_of_length 5)
    (cleanup_loop (remote := sim_requests calm) defaults ∅ ["a"] 0 tt).2.
Proof.
  apply (successful_mutation_is_paced (remote := sim_requests calm) defaults
           ∅ ["a"] 0 tt).
  simpl. lia.
Defined.

Lemma phases_stop_when_reconciled_witness :
  ((∅ : gset string) ⊆ ∅ →
   follow_back_followers (remote := sim_requests calm)
     (interp := elements_order) defaults 3 tt
   = (Ret tt, tt,
      [EvListing Followers "me" 1 100 200 []]
      ++ [EvListing Following "me" 1 100 200 []])) ∧
  ((∅ : gset string) ⊆ ∅ →
   cleanup_non_followers (remote := sim_requests calm)
     (interp := elements_order) defaults 3 tt
   = (Ret tt, tt,
      [EvListing Followers "me" 1 100 200 []]
      ++ [EvListing Following "me" 1 100 200 []])).
Proof.
  apply (phases_stop_when_reconciled (remote := sim_requests calm)
           (interp := elements_order) defaults 3 tt [] [] tt tt
           [EvListing Followers "me" 1 100 200 []]
           [EvListing Following "me" 1 100 200 []] ∅ ∅); reflexivity.
Defined.

Lemma follow_back_targets_witness :
  NoDup (puts (follow_back_followers (remote := sim_requests mixed)
                 (interp := elements_order) defaults 3 tt).2).*1 ∧
  (∀ u, u ∈ (puts (follow_back_followers (remote := sim_requests mixed)
                     (interp := elements_order) defaults 3 tt).2).*1 →
        u ∈ ({[ "a" ]} ∪ ({[ "b" ]} ∪ ∅) : gset string) ∧
        u ∉ ({[ "b" ]} ∪ ({[ "c" ]} ∪ ∅) : gset string)) ∧
  deletes (follow_back_followers (remote := sim_requests mixed)
             (interp := elements_order) defaults 3 tt).2 = [].
Proof.
  apply (follow_back_targets (remote := sim_requests mixed)
           (interp := elements_order) defaults 3 tt
           [entry "a"; entry "b"] [entry "b"; entry "c"] tt tt
           (get_followers (remote := sim_requests mixed) defaults 3 None tt).2
           (get_following (remote := sim_requests mixed) defaults 3 None tt).2);
    reflexivity.
Defined.

Lemma cleanup_targets_witness :
  NoDup (deletes (cleanup_non_followers (remote := sim_requests mixed)
                    (interp := elements_order) defaults 3 tt).2).*1 ∧
  (∀ u, u ∈ (deletes (cleanup_non_followers (remote := sim_requests mixed)
                        (interp := elements_order) defaults 3 tt).2).*1 →
        u ∈ ({[ "b" ]} ∪ ({[ "c" ]} ∪ ∅) : gset string) ∧
        u ∉ ({[ "a" ]} ∪ ({[ "b" ]} ∪ ∅) : gset string)) ∧
  puts (cleanup_non_followers (remote := sim_requests mixed)
          (interp := elements_order) defaults 3 tt).2 = [] ∧
  (∀ d, d ∈ filtered (cleanup_non_followers (remote := sim_requests mixed)
                        (interp := elements_order) defaults 3 tt).2 →
        d ∈ [entry "b"; entry "c"] ∧
        ∃ u, d !! "login" = Some (VStr u) ∧
             u ∈ ({[ "b" ]} ∪ ({[ "c" ]} ∪ ∅) : gset string) ∧
             u ∉ ({[ "a" ]} ∪ ({[ "b" ]} ∪ ∅) : gset string)).
Proof.
  apply (cleanup_targets (remote := sim_requests mixed)
           (interp := elements_order) defaults 3 tt
           [entry "a"; entry "b"] [entry "b"; entry "c"] tt tt
           (get_followers (remote := sim_requests mixed) defaults 3 None tt).2
           (get_following (remote := sim_requests mixed) defaults 3 None tt).2);
    reflexivity.
Defined.

Lemma no_request_without_configuration_witness :
  run_automation (remote := sim_requests calm) (interp := elements_order)
    unconfigured 3 "both" tt = (Ret tt, tt, []) ∧
  main (remote := sim_requests calm) (interp := elements_order)
    unconfigured 3 None tt = (Ret tt, tt, []).
Proof.
  apply (no_request_without_configuration (remote := sim_requests calm)
           (interp := elements_order) unconfigured 3 "both" None tt).
  left. reflexivity.
Defined.
